(** * The procstats collector of node_exporter (collector/procstats.go)

    A shallow embedding of the three functions that carry the collector's
    logic and the properties they satisfy:

    - [Update_procPID]: the first loop of [procstatsCollector.Update]
      (lines 81-96), which resolves the registered process names to PIDs
      through the files /var/run/<name>.pid;
    - [getProcessStats] (lines 120-138), which opens /proc/<pid>/status for
      every resolved process;
    - [parseProcessStats] (lines 140-164), which scans a status record for
      the VmRSS line.

    Go values are modelled as follows.  A Go [string] and a [[]byte] are
    Rocq [string]s (sequences of 8-bit characters); an [int] is a [Z] (the
    platform is taken to be 64-bit, which only matters inside
    [Strconv.Atoi]); [map[string]int] is [gmap string Z], [map[int]int] is
    [gmap Z Z]; an [error] is an [option error], [None] being [nil].  A
    run-time panic (index or slice bounds out of range) is the [Panic]
    outcome.  Calls to [log.Errorf] append an entry to a log that is threaded
    through the functions. *)

From Stdlib Require Import ZArith Ascii String List Lia Bool.
From stdpp Require Import base option numbers list strings gmap fin_maps.

Local Open Scope Z_scope.

(* ===================================================================== *)
(** * Outcomes of a Go computation *)
(* ===================================================================== *)

(** The two run-time panics the collector can raise. *)
Inductive runtimeError : Type :=
  | IndexOutOfRange (i : Z) (length : Z)
  | SliceBoundsOutOfRange (lo hi : Z) (length : Z).

Inductive outcome (A : Type) : Type :=
  | Return (a : A)
  | Panic (e : runtimeError).
Arguments Return {A} a.
Arguments Panic {A} e.

Definition outcome_bind {A B : Type} (f : A -> outcome B) (m : outcome A) : outcome B :=
  match m with
  | Return a => f a
  | Panic e => Panic e
  end.

#[global] Instance outcome_mbind : MBind outcome := @outcome_bind.
#[global] Instance outcome_mret : MRet outcome := @Return.

(** [panics m] holds when the computation ends in a panic. *)
Definition panics {A : Type} (m : outcome A) : bool :=
  match m with
  | Return _ => false
  | Panic _ => true
  end.

(** Go's [error] values that occur in the collector. *)
Inductive error : Type :=
  | ErrSyntax (fn : string) (num : string)   (* *strconv.NumError, strconv.ErrSyntax *)
  | ErrRange (fn : string) (num : string)    (* *strconv.NumError, strconv.ErrRange *)
  | PathError (op : string) (path : string). (* *os.PathError from os.Open / ReadFile *)

(** Entries written by [log.Errorf], one constructor per call site. *)
Inductive logEntry : Type :=
  | LogPidConversion (procName : string) (err : error)  (* procstats.go:93 *)
  | LogOpenFailed (filename : string)                   (* procstats.go:128 *)
  | LogParseFailed (procName : string)                  (* procstats.go:134 *)
  | LogResidentMemory (pid : Z).                        (* procstats.go:158 *)

(** A left fold whose body may panic: the shape of a Go [for ... range]
    loop whose body only updates the loop state. *)
Fixpoint foldM {A B : Type} (body : A -> B -> outcome A) (acc : A) (l : list B)
  : outcome A :=
  match l with
  | [] => Return acc
  | x :: l' => acc' ← body acc x; foldM body acc' l'
  end.

(* ===================================================================== *)
(** * Go built-ins on strings and slices *)
(* ===================================================================== *)

Definition byte (n : N) : ascii := ascii_of_N n.
Definition byteVal (c : ascii) : Z := Z.of_N (N_of_ascii c).

(** [len(s)] *)
Definition len (s : string) : Z := Z.of_nat (String.length s).

Fixpoint takeS (n : nat) (s : string) : string :=
  match n, s with
  | S n', String c s' => String c (takeS n' s')
  | _, _ => EmptyString
  end.

Fixpoint dropS (n : nat) (s : string) : string :=
  match n, s with
  | S n', String _ s' => dropS n' s'
  | _, _ => s
  end.

(** The slice expression [s[lo:hi]]: it panics unless [0 <= lo <= hi <= len(s)]. *)
Definition slice (s : string) (lo hi : Z) : outcome string :=
  if (0 <=? lo) && (lo <=? hi) && (hi <=? len s)
  then Return (takeS (Z.to_nat (hi - lo)) (dropS (Z.to_nat lo) s))
  else Panic (SliceBoundsOutOfRange lo hi (len s)).

(** [s[lo:]] is [s[lo:len(s)]] and [s[:hi]] is [s[0:hi]]. *)
Definition sliceFrom (s : string) (lo : Z) : outcome string := slice s lo (len s).
Definition sliceTo (s : string) (hi : Z) : outcome string := slice s 0 hi.

(** The index expression [l[i]] on a slice of strings. *)
Definition index {A : Type} (l : list A) (i : Z) : outcome A :=
  if (0 <=? i) && (i <? Z.of_nat (length l))
  then match l !! Z.to_nat i with
       | Some x => Return x
       | None => Panic (IndexOutOfRange i (Z.of_nat (length l)))
       end
  else Panic (IndexOutOfRange i (Z.of_nat (length l))).

(* ===================================================================== *)
(** * Package strings *)
(* ===================================================================== *)

Module Strings.

(** [strings.Split(s, sep)] for a separator of one byte, the only use in
    the collector ([":"]): the pieces between the separators, one more
    piece than there are separators. *)
Fixpoint Split (s : string) (sep : ascii) : list string :=
  match s with
  | EmptyString => [EmptyString]
  | String c s' =>
      if Ascii.eqb c sep then EmptyString :: Split s' sep
      else match Split s' sep with
           | piece :: pieces => String c piece :: pieces
           | [] => [String c EmptyString]
           end
  end.

(** [strings.HasSuffix]: [len(s) >= len(suffix) && s[len(s)-len(suffix):] == suffix] *)
Definition HasSuffix (s suffix : string) : bool :=
  (len suffix <=? len s)
  && String.eqb (dropS (String.length s - String.length suffix) s) suffix.

(** [strings.TrimSuffix]: [s[:len(s)-len(suffix)]] when [s] has the suffix. *)
Definition TrimSuffix (s suffix : string) : string :=
  if HasSuffix s suffix
  then takeS (String.length s - String.length suffix) s
  else s.

(** White space in the sense of [unicode.IsSpace].  The ASCII ones: *)
Definition asciiSpace (c : ascii) : bool :=
  let n := byteVal c in
  (n =? 9) || (n =? 10) || (n =? 11) || (n =? 12) || (n =? 13) || (n =? 32).

(** U+0085 and U+00A0, by their two UTF-8 bytes. *)
Definition space2 (c1 c2 : ascii) : bool :=
  (byteVal c1 =? 194) && ((byteVal c2 =? 133) || (byteVal c2 =? 160)).

(** U+1680, U+2000..U+200A, U+2028, U+2029, U+202F, U+205F and U+3000, by
    their three UTF-8 bytes. *)
Definition space3 (c1 c2 c3 : ascii) : bool :=
  let '(a, b, c) := (byteVal c1, byteVal c2, byteVal c3) in
  ((a =? 225) && (b =? 154) && (c =? 128))
  || ((a =? 226) && (b =? 128)
      && (((128 <=? c) && (c <=? 138)) || (c =? 168) || (c =? 169) || (c =? 175)))
  || ((a =? 226) && (b =? 129) && (c =? 159))
  || ((a =? 227) && (b =? 128) && (c =? 128)).

(** [strings.TrimLeftFunc(s, unicode.IsSpace)]: drop white-space runes from
    the front.  UTF-8 decoding is strict, so a rune is white space exactly
    when the bytes at the front are one of the encodings above. *)
Fixpoint TrimLeftSpace (s : string) : string :=
  match s with
  | EmptyString => EmptyString
  | String c1 s1 =>
      if asciiSpace c1 then TrimLeftSpace s1
      else match s1 with
           | EmptyString => s
           | String c2 s2 =>
               if space2 c1 c2 then TrimLeftSpace s2
               else match s2 with
                    | EmptyString => s
                    | String c3 s3 =>
                        if space3 c1 c2 c3 then TrimLeftSpace s3 else s
                    end
           end
  end.

(** The same scan on the reversed string, for the back: the last rune is
    white space exactly when the string ends in one of the encodings. *)
Fixpoint trimLeftSpaceRev (s : string) : string :=
  match s with
  | EmptyString => EmptyString
  | String c1 s1 =>
      if asciiSpace c1 then trimLeftSpaceRev s1
      else match s1 with
           | EmptyString => s
           | String c2 s2 =>
               if space2 c2 c1 then trimLeftSpaceRev s2
               else match s2 with
                    | EmptyString => s
                    | String c3 s3 =>
                        if space3 c3 c2 c1 then trimLeftSpaceRev s3 else s
                    end
           end
  end.

(** [strings.TrimRightFunc(s, unicode.IsSpace)] *)
Definition TrimRightSpace (s : string) : string :=
  String.rev (trimLeftSpaceRev (String.rev s)).

(** [strings.TrimSpace] *)
Definition TrimSpace (s : string) : string := TrimRightSpace (TrimLeftSpace s).

End Strings.

(* ===================================================================== *)
(** * Package strconv *)
(* ===================================================================== *)

Module Strconv.

(** The platform's [int] has 64 bits. *)
Definition IntSize : Z := 64.

Inductive numError : Type := Syntax | Range.

Definition isDigit (c : ascii) : bool := (48 <=? byteVal c) && (byteVal c <=? 57).

Definition maxUint64 : Z := 2 ^ 64 - 1.

(** The digit loop of [ParseUint(s, 10, 64)]: [n] is the value read so
    far.  The additions are those of [uint64]: they wrap at [2^64]. *)
Fixpoint parseUintLoop (s : string) (n : Z) : Z * option numError :=
  match s with
  | EmptyString => (n, None)
  | String c s' =>
      if isDigit c then
        let d := byteVal c - 48 in
        if n >=? maxUint64 / 10 + 1 then (maxUint64, Some Range)
        else
          let n10 := (n * 10) mod 2 ^ 64 in
          let n1 := (n10 + d) mod 2 ^ 64 in
          if (n1 <? n10) || (n1 >? maxUint64) then (maxUint64, Some Range)
          else parseUintLoop s' n1
      else (0, Some Syntax)
  end.

(** [ParseUint(s, 10, 64)] *)
Definition ParseUint (s : string) : Z * option numError :=
  match s with
  | EmptyString => (0, Some Syntax)
  | _ => parseUintLoop s 0
  end.

(** The conversion [int64(u)] of a [uint64]. *)
Definition toInt64 (u : Z) : Z := (u + 2 ^ 63) mod 2 ^ 64 - 2 ^ 63.

(** [ParseInt(s, 10, 0)] *)
Definition ParseInt (s : string) : Z * option numError :=
  match s with
  | EmptyString => (0, Some Syntax)
  | String c s' =>
      let neg := Ascii.eqb c "-" in
      let digits := if Ascii.eqb c "+" || neg then s' else s in
      match ParseUint digits with
      | (_, Some Syntax) => (0, Some Syntax)
      | (un, _) =>
          let cutoff := 2 ^ (IntSize - 1) in
          if negb neg && (un >=? cutoff) then (cutoff - 1, Some Range)
          else if neg && (un >? cutoff) then (- cutoff, Some Range)
          else
            let n := toInt64 un in
            (if neg then toInt64 (- n) else n, None)
      end
  end.

(** [strconv.Atoi(s)]: [ParseInt(s, 10, 0)] converted to [int]; the error
    records the string that failed to convert. *)
Definition Atoi (s : string) : Z * option error :=
  match ParseInt s with
  | (i64, None) => (i64, None)
  | (i64, Some Syntax) => (i64, Some (ErrSyntax "Atoi" s))
  | (i64, Some Range) => (i64, Some (ErrRange "Atoi" s))
  end.

Definition digitChar (d : Z) : ascii := byte (Z.to_N (48 + d)).

(** The digit loop of [FormatInt(i, 10)]: the digits of [u] are put in
    front of [acc], the least significant first.  A [uint64] has at most
    twenty digits. *)
Fixpoint formatBits (fuel : nat) (u : Z) (acc : string) : string :=
  match fuel with
  | O => acc
  | S fuel' =>
      if u >=? 10
      then formatBits fuel' (u / 10) (String (digitChar (u - (u / 10) * 10)) acc)
      else String (digitChar u) acc
  end.

(** [strconv.Itoa(i)] *)
Definition Itoa (i : Z) : string :=
  if i <? 0 then String "-" (formatBits 20 (- i) EmptyString)
  else formatBits 20 i EmptyString.

End Strconv.

(* ===================================================================== *)
(** * Package bufio *)
(* ===================================================================== *)

Module Bufio.

(** The largest token a [Scanner] buffers. *)
Definition MaxScanTokenSize : Z := 64 * 1024.

(** The lines of a stream as [bufio.ScanLines] cuts them: every line feed
    ends a line, and what follows the last line feed is a line when it is
    not empty. *)
Fixpoint rawLines (r : string) : list string :=
  match r with
  | EmptyString => []
  | String c r' =>
      if Ascii.eqb c (byte 10) then EmptyString :: rawLines r'
      else match rawLines r' with
           | line :: lines => String c line :: lines
           | [] => [String c EmptyString]
           end
  end.

(** [dropCR]: a line loses one carriage return at its end. *)
Fixpoint dropCR (data : string) : string :=
  match data with
  | EmptyString => EmptyString
  | String c EmptyString => if Ascii.eqb c (byte 13) then EmptyString else data
  | String c data' => String c (dropCR data')
  end.

(** The tokens that successive calls of [Scanner.Scan] deliver.  A line
    that does not fit the buffer makes [Scan] return false (the scanner's
    error is [ErrTooLong]), which ends the loop of the caller as the end
    of the stream does.  A reader that fails after some bytes is scanned
    as the stream of the bytes it delivered, so a stream is modelled by
    its bytes. *)
Fixpoint scanTokens (lines : list string) : list string :=
  match lines with
  | [] => []
  | line :: lines' =>
      if len line <? MaxScanTokenSize then dropCR line :: scanTokens lines'
      else []
  end.

Definition scanLines (r : string) : list string := scanTokens (rawLines r).

End Bufio.

(* ===================================================================== *)
(** * The collector *)
(* ===================================================================== *)

(** The body of the scanning loop of [parseProcessStats] (lines 149-161)
    for one line [text]; the state is the map [stats] and the log. *)
Definition parseProcessStats_body (pid : Z)
    (st : gmap Z Z * list logEntry) (text : string)
  : outcome (gmap Z Z * list logEntry) :=
  let '(stats, log) := st in
  let procStats := Strings.Split text ":" in
  key ← index procStats 0;
  if String.eqb key "VmRSS" then
    data ← index procStats 1;
    data ← sliceFrom data 1;
    let data := Strings.TrimSuffix data "kB" in
    let data := Strings.TrimSpace data in
    let '(value, err) := Strconv.Atoi data in
    let stats := <[1 := value]> stats in
    match err with
    | Some _ => Return (stats, log ++ [LogResidentMemory pid])
    | None => Return (stats, log)
    end
  else Return (stats, log).

(** [parseProcessStats(r, pid)]: the returned map, the returned error and
    the entries logged. *)
Definition parseProcessStats (r : string) (pid : Z)
  : outcome (gmap Z Z * option error * list logEntry) :=
  let stats : gmap Z Z := <[0 := pid]> ∅ in
  '(stats, log) ← foldM (parseProcessStats_body pid) (stats, []) (Bufio.scanLines r);
  Return (stats, None, log).

Section Collector.

(** The file system the collector reads.  [ReadFile] is
    [ioutil.ReadFile]: the bytes of the file, or the error.  [Open] is
    [os.Open] followed by the reads of the scanner: the bytes the opened
    file delivers, or the error of opening it. *)
Variable ReadFile : string -> string + error.
Variable Open : string -> string + error.

(** [procFilePath] is declared in another file of the package; it puts
    the path of the process information file system in front of its
    argument. *)
Variable procFilePath : string -> string.

Definition pidFile (procName : string) : string :=
  "/var/run/" +:+ procName +:+ ".pid".

(** The body of the first loop of [Update] (lines 85-95) for one
    registered name; the state is the map [procPID] and the log. *)
Definition Update_procPID_body
    (st : gmap string Z * list logEntry) (procName : string)
  : outcome (gmap string Z * list logEntry) :=
  let '(procPID, log) := st in
  match ReadFile (pidFile procName) with
  | inr _ => Return (procPID, log)
  | inl pidBytes =>
      pidStr ← sliceTo pidBytes (len pidBytes - 1);
      let '(pid, err) := Strconv.Atoi pidStr in
      let log := match err with
                 | Some e => log ++ [LogPidConversion procName e]
                 | None => log
                 end in
      Return (<[procName := pid]> procPID, log)
  end.

(** Lines 81-96 of [Update]: the map from process names to PIDs. *)
Definition Update_procPID (registeredProcessesList : list string)
  : outcome (gmap string Z * list logEntry) :=
  foldM Update_procPID_body (∅, []) registeredProcessesList.

Definition statusFile (pid : Z) : string :=
  procFilePath (Strconv.Itoa pid) +:+ "/status".

(** The loop of [getProcessStats] (lines 122-136) over the entries of
    [procPID] in the order [entries].  The deferred [procFile.Close()] has
    no part in what the function returns and is left out.  The error of
    [parseProcessStats] is only logged (line 134): the record is stored in
    either case. *)
Fixpoint getProcessStats_range (entries : list (string * Z))
    (procStats : gmap string (gmap Z Z)) (log : list logEntry)
  : outcome (gmap string (gmap Z Z) * option error * list logEntry) :=
  match entries with
  | [] => Return (procStats, None, log)
  | (procName, pid) :: entries' =>
      let filename := statusFile pid in
      match Open filename with
      | inr err => Return (procStats, Some err, log ++ [LogOpenFailed filename])
      | inl procFile =>
          '(stats, err, parseLog) ← parseProcessStats procFile pid;
          let log := log ++ parseLog ++
                     match err with
                     | Some _ => [LogParseFailed procName]
                     | None => []
                     end in
          getProcessStats_range entries' (<[procName := stats]> procStats) log
      end
  end.

(** [getProcessStats(procPID)].  Go does not fix the order in which
    [range] visits a map, so the function is a relation: [res] is a
    result of the call when some order of the entries produces it. *)
Definition getProcessStats (procPID : gmap string Z)
    (res : outcome (gmap string (gmap Z Z) * option error * list logEntry)) : Prop :=
  ∃ entries, entries ≡ₚ map_to_list procPID
             ∧ getProcessStats_range entries ∅ [] = res.

End Collector.


(* ===================================================================== *)
(** * Vocabulary of the properties *)
(* ===================================================================== *)

Definition tab : string := String (byte 9) EmptyString.
Definition newline : string := String (byte 10) EmptyString.

(** The text of a line before its first colon (the whole line when it has
    no colon) and the text after its first colon (when it has one). *)
Fixpoint beforeColon (text : string) : string :=
  match text with
  | EmptyString => EmptyString
  | String c text' =>
      if Ascii.eqb c ":" then EmptyString else String c (beforeColon text')
  end.

Fixpoint afterColon (text : string) : option string :=
  match text with
  | EmptyString => None
  | String c text' => if Ascii.eqb c ":" then Some text' else afterColon text'
  end.

(** What [parseProcessStats_body] reads from a line, apart from what it
    does with it: nothing when the first piece is not ["VmRSS"], the result
    of [Atoi] otherwise. *)
Definition residentMemory (text : string) : outcome (option (Z * option error)) :=
  let procStats := Strings.Split text ":" in
  key ← index procStats 0;
  if String.eqb key "VmRSS" then
    data ← index procStats 1;
    data ← sliceFrom data 1;
    Return (Some (Strconv.Atoi (Strings.TrimSpace (Strings.TrimSuffix data "kB"))))
  else Return None.

(** A line is a VmRSS line when its first piece is the field name. *)
Definition isVmRSS (text : string) : bool := String.eqb (beforeColon text) "VmRSS".

(** A VmRSS line can be indexed when it has a second piece that is not
    empty. *)
Definition indexable (text : string) : bool :=
  negb (isVmRSS text)
  || match afterColon text with
     | Some rest => negb (String.eqb (beforeColon rest) EmptyString)
     | None => false
     end.

(** The number that a string of decimal digits denotes, read from the
    left with [n] the number read so far. *)
Fixpoint digitsValue (n : Z) (s : string) : Z :=
  match s with
  | EmptyString => n
  | String c s' => digitsValue (n * 10 + (byteVal c - 48)) s'
  end.

Fixpoint allDigits (s : string) : bool :=
  match s with
  | EmptyString => true
  | String c s' => Strconv.isDigit c && allDigits s'
  end.

(** The resident-memory line of /proc/<pid>/status for the digits [ds]:
    [VmRSS:], a tab, the digits, a blank and [kB]. *)
Definition VmRSSLine (ds : string) : string := "VmRSS:" +:+ tab +:+ ds +:+ " kB".

(** A VmRSS line whose number [Atoi] rejects. *)
Definition parseFails (text : string) : bool :=
  match residentMemory text with
  | Return (Some (_, Some _)) => true
  | _ => false
  end.

(** Status records used as examples: an excerpt of a /proc/<pid>/status
    file with the resident-memory line of the test of the package, and
    records with a malformed, a repeated and a truncated memory line. *)
Definition statusRecord : string :=
  "Name:" +:+ tab +:+ "hekad" +:+ newline +:+
  "State:" +:+ tab +:+ "S (sleeping)" +:+ newline +:+
  "VmRSS:" +:+ tab +:+ "11708 kB" +:+ newline +:+
  "Threads:" +:+ tab +:+ "1" +:+ newline.

Definition statusMalformed : string :=
  "Name:" +:+ tab +:+ "hekad" +:+ newline +:+
  "VmRSS:" +:+ tab +:+ "abc kB" +:+ newline +:+
  "Threads:" +:+ tab +:+ "1" +:+ newline.

Definition statusRepeated : string :=
  "VmRSS:" +:+ tab +:+ "11708 kB" +:+ newline +:+
  "VmRSS:" +:+ tab +:+ "oops kB" +:+ newline +:+
  "VmRSS:" +:+ tab +:+ "    2048 kB" +:+ newline +:+
  "Threads:" +:+ tab +:+ "1" +:+ newline.

Definition statusNoColon : string :=
  "Name:" +:+ tab +:+ "hekad" +:+ newline +:+ "VmRSS" +:+ newline.

Definition statusNoValue : string :=
  "Name:" +:+ tab +:+ "hekad" +:+ newline +:+ "VmRSS:" +:+ newline.

(** A VmRSS line is well formed, with the value [value], when the body of
    the loop reads that number from it without an error. *)
Definition wellFormedVmRSS (text : string) (value : Z) : Prop :=
  residentMemory text = Return (Some (value, None)).

(** The PID that the first loop of [Update] records for a name, read off
    its body: none when the PID file cannot be read (or is empty, where
    the body panics), the number [Atoi] returns for the content without
    its last byte otherwise. *)
Definition recordedPID (ReadFile : string -> string + error) (procName : string)
  : option Z :=
  match ReadFile (pidFile procName) with
  | inr _ => None
  | inl pidBytes =>
      match sliceTo pidBytes (len pidBytes - 1) with
      | Return pidStr => Some (Strconv.Atoi pidStr).1
      | Panic _ => None
      end
  end.

(** A name whose PID file is readable and holds no byte. *)
Definition emptyPidFile (ReadFile : string -> string + error) (procName : string)
  : bool :=
  match ReadFile (pidFile procName) with
  | inl EmptyString => true
  | _ => false
  end.

(** File systems used as examples.  /var/run has a PID file for nginx
    (["456"] and a line feed), one for hekad whose content is not a number,
    and an empty one for cron. *)
Definition varRun (path : string) : string + error :=
  if String.eqb path "/var/run/nginx.pid" then inl ("456" +:+ newline)
  else if String.eqb path "/var/run/hekad.pid" then inl ("abc" +:+ newline)
  else if String.eqb path "/var/run/cron.pid" then inl EmptyString
  else inr (PathError "open" path).

(** /proc has a status record for the process 456 only. *)
Definition procRoot (name : string) : string := "/proc/" +:+ name.

Definition procFS (path : string) : string + error :=
  if String.eqb path "/proc/456/status" then inl statusRecord
  else inr (PathError "open" path).

(** A map of names to PIDs as [Update] passes it to [getProcessStats]:
    the process 456 has a status record in [procFS], the others have none. *)
Definition resolved : gmap string Z :=
  <["nginx" := 456]> (<["hekad" := 0]> (<["sshd" := 789]> ∅)).

(* ===================================================================== *)
(** * The collector: construction, emission and [Update] as a whole *)
(* ===================================================================== *)

(** [strings.Join(pieces, sep)] for a separator of one byte. *)
Fixpoint Join (pieces : list string) (sep : ascii) : string :=
  match pieces with
  | [] => EmptyString
  | [piece] => piece
  | piece :: pieces' => piece +:+ String sep (Join pieces' sep)
  end.

(** Whether a byte occurs in a string. *)
Fixpoint occurs (c : ascii) (s : string) : bool :=
  match s with
  | EmptyString => false
  | String c' s' => Ascii.eqb c' c || occurs c s'
  end.

(** [prometheus.GaugeOpts], with the fields the collector sets. *)
Record GaugeOpts : Type := {
  Namespace : string;
  Subsystem : string;
  Name : string;
  Help : string
}.

Definition processSubsystem : string := "process".

(** The errors that [Update] makes with [fmt.Errorf]. *)
Inductive updateError : Type :=
  | CouldntGetProcessStats (err : error)    (* procstats.go:99 *)
  | InvalidValue (value : Z) (err : error)  (* procstats.go:105 *)
  | UnexpectedCollector (k : Z).            (* procstats.go:110 *)

Section Metrics.

(** Go's [float64] and the conversion [float64(value)] of an [int]. *)
Variable Float64 : Type.
Variable float64 : Z -> Float64.

(** A [prometheus.Metric] as a gauge vector sends it: the options of the
    vector, the value of its label and the value of the gauge. *)
Definition Metric : Type := (GaugeOpts * string * Float64)%type.

(** A [prometheus.Collector].  A [*prometheus.GaugeVec] with one label
    name holds a gauge for every label value it was asked for; any other
    collector is known by the metrics it sends only. *)
Inductive Collector : Type :=
  | GaugeVec (opts : GaugeOpts) (children : gmap string Float64)
  | OtherCollector (sends : list Metric).

Record procstatsCollector : Type := {
  registeredProcessesList : list string;
  metrics : list Collector
}.

(** [NewProcStatsCollector()].  [Namespace] is a constant declared in
    another file of the package, and [registeredProcesses] is the value of
    the flag collector.procstats.registered-processes. *)
Definition NewProcStatsCollector (Namespace : string) (registeredProcesses : string)
  : procstatsCollector * option error :=
  ({| registeredProcessesList := Strings.Split registeredProcesses ",";
      metrics :=
        [ GaugeVec {| Namespace := Namespace; Subsystem := processSubsystem;
                      Name := "pid";
                      Help := "The PID of the process right now" |} ∅;
          GaugeVec {| Namespace := Namespace; Subsystem := processSubsystem;
                      Name := "mem_kilobytes";
                      Help := "The memory consumed, in bytes, by the process right now" |} ∅ ]
   |}, None).

(** The body of the inner loop of [Update] (lines 104-111) for the slot
    [k] with the value [value] of the record of [procName].  [err] is the
    variable of that name, which the loop tests; the gauge is set in place,
    in the vector that [c.metrics[k]] points to. *)
Definition Update_emit_body (err : option error) (procName : string)
    (metrics : list Collector) (kv : Z * Z)
  : outcome (list Collector * option updateError) :=
  let '(k, value) := kv in
  match err with
  | Some e => Return (metrics, Some (InvalidValue value e))
  | None =>
      collector ← index metrics k;
      match collector with
      | GaugeVec opts children =>
          Return (<[Z.to_nat k := GaugeVec opts (<[procName := float64 value]> children)]> metrics,
                  None)
      | OtherCollector _ => Return (metrics, Some (UnexpectedCollector k))
      end
  end.

(** The inner loop (lines 103-112) over the slots of one record, in the
    order [slots]; it stops at the first error. *)
Fixpoint Update_emit_stats (err : option error) (procName : string)
    (slots : list (Z * Z)) (metrics : list Collector)
  : outcome (list Collector * option updateError) :=
  match slots with
  | [] => Return (metrics, None)
  | kv :: slots' =>
      '(metrics', failure) ← Update_emit_body err procName metrics kv;
      match failure with
      | Some _ => Return (metrics', failure)
      | None => Update_emit_stats err procName slots' metrics'
      end
  end.

(** The outer loop (lines 102-113) over the records, in the order
    [records]. *)
Fixpoint Update_emit (err : option error) (records : list (string * list (Z * Z)))
    (metrics : list Collector)
  : outcome (list Collector * option updateError) :=
  match records with
  | [] => Return (metrics, None)
  | (procName, slots) :: records' =>
      '(metrics', failure) ← Update_emit_stats err procName slots metrics;
      match failure with
      | Some _ => Return (metrics', failure)
      | None => Update_emit err records' metrics'
      end
  end.

(** The orders in which the two loops may visit [processStats]: the
    records in some order, and the slots of each record in some order. *)
Definition emissionOrder (processStats : gmap string (gmap Z Z))
    (records : list (string * list (Z * Z))) : Prop :=
  ∃ outer : list (string * gmap Z Z),
    outer ≡ₚ map_to_list processStats
    ∧ Forall2 (fun entry record =>
                 entry.1 = record.1 ∧ record.2 ≡ₚ map_to_list entry.2)
              outer records.

(** [c.Collect(ch)]: a gauge vector sends one metric per gauge it holds,
    in an order that is not fixed. *)
Definition Collect (collector : Collector) (ch : list Metric) : Prop :=
  match collector with
  | GaugeVec opts children =>
      ch ≡ₚ (fun child : string * Float64 => (opts, child.1, child.2))
              <$> map_to_list children
  | OtherCollector sends => ch = sends
  end.

(** The last loop of [Update] (lines 114-116): what is sent on [ch]. *)
Inductive CollectAll : list Collector -> list Metric -> Prop :=
  | CollectAll_nil : CollectAll [] []
  | CollectAll_cons collector collectors sent ch :
      Collect collector sent -> CollectAll collectors ch ->
      CollectAll (collector :: collectors) (sent ++ ch).

Variable ReadFile : string -> string + error.
Variable Open : string -> string + error.
Variable procFilePath : string -> string.

(** [Update(ch)]: the vectors of the collector after the call, what was
    sent on [ch], the error returned and the entries logged.  [res] is a
    result of the call when some order of the iterations over the maps
    produces it.  After the call of [getProcessStats] the variable [err] is
    nil where the loops are reached, and it is what [Update] returns. *)
Definition Update (c : procstatsCollector)
    (res : outcome (list Collector * list Metric * option updateError * list logEntry))
  : Prop :=
  match Update_procPID ReadFile (registeredProcessesList c) with
  | Panic e => res = Panic e
  | Return (procPID, log) =>
      ∃ stats, getProcessStats Open procFilePath procPID stats
        ∧ match stats with
          | Panic e => res = Panic e
          | Return (processStats, Some err, statsLog) =>
              res = Return (metrics c, [], Some (CouldntGetProcessStats err),
                            log ++ statsLog)
          | Return (processStats, None, statsLog) =>
              ∃ records, emissionOrder processStats records
                ∧ match Update_emit None records (metrics c) with
                  | Panic e => res = Panic e
                  | Return (metrics', Some failure) =>
                      res = Return (metrics', [], Some failure, log ++ statsLog)
                  | Return (metrics', None) =>
                      ∃ ch, CollectAll metrics' ch
                        ∧ res = Return (metrics', ch, None, log ++ statsLog)
                  end
          end
  end.

End Metrics.

Arguments GaugeVec {Float64} opts children.
Arguments OtherCollector {Float64} sends.
Arguments registeredProcessesList {Float64} c : rename.
Arguments metrics {Float64} c : rename.
Arguments NewProcStatsCollector {Float64} Namespace registeredProcesses.




(** A gauge vector after the gauge of [procName] was set to the value of a
    slot, if the record has the slot. *)
Definition setGauge {Float64 : Type} (float64 : Z -> Float64) (procName : string)
    (slot : option Z) (children : gmap string Float64) : gmap string Float64 :=
  match slot with
  | Some value => <[procName := float64 value]> children
  | None => children
  end.

(** The gauge of [procName] in a vector after the loops of [Update] went
    over the records [processStats], for the slot [k]. *)
Definition gaugeAfter {Float64 : Type} (float64 : Z -> Float64) (k : Z)
    (processStats : gmap string (gmap Z Z)) (children : gmap string Float64)
    (procName : string) : option Float64 :=
  match processStats !! procName ≫= (fun stats : gmap Z Z => stats !! k) with
  | Some value => Some (float64 value)
  | None => children !! procName
  end.

(** Collectors used as examples, with the integers standing for
    [float64]: one that watches nginx and still holds the gauges of cron
    from an earlier call, and one that watches hekad and nginx. *)
Definition pidGauge : GaugeOpts :=
  {| Namespace := "node"; Subsystem := processSubsystem; Name := "pid";
     Help := "The PID of the process right now" |}.

Definition memGauge : GaugeOpts :=
  {| Namespace := "node"; Subsystem := processSubsystem; Name := "mem_kilobytes";
     Help := "The memory consumed, in bytes, by the process right now" |}.

Definition watchNginx : procstatsCollector Z :=
  {| registeredProcessesList := ["nginx"];
     metrics := [GaugeVec pidGauge (<["cron" := 99]> ∅);
                 GaugeVec memGauge (<["cron" := 5]> ∅)] |}.

Definition watchBoth : procstatsCollector Z :=
  (NewProcStatsCollector "node" "hekad,nginx").1.

Definition afterNginx : list (Collector Z) :=
  [GaugeVec pidGauge (<["nginx" := 456]> (<["cron" := 99]> ∅));
   GaugeVec memGauge (<["nginx" := 11708]> (<["cron" := 5]> ∅))].

Definition sentNginx : list (Metric Z) :=
  [(pidGauge, "cron", 99); (pidGauge, "nginx", 456);
   (memGauge, "cron", 5); (memGauge, "nginx", 11708)].
(* ===================================================================== *)
(** * Properties *)
(* ===================================================================== *)

(** ** Folds and outcomes *)


(** A loop whose body leaves the state alone on every element returns the
    state it started from. *)
Lemma foldM_skip {A B : Type} (body : A -> B -> outcome A) (acc : A) (l : list B) :
  Forall (fun x => body acc x = Return acc) l -> foldM body acc l = Return acc.
Proof.
  induction 1 as [|x l Hx _ IH]; simpl; [reflexivity|].
  rewrite Hx. exact IH.
Qed.

(** A loop panics exactly when its body panics on some element, from
    whatever state, provided that panicking does not depend on the state. *)
Lemma foldM_panics {A B : Type} (body : A -> B -> outcome A) (bad : B -> bool) :
  (forall acc x, panics (body acc x) = bad x) ->
  forall l acc, panics (foldM body acc l) = existsb bad l.
Proof.
  intros Hbad. induction l as [|x l IH]; intros acc; simpl; [reflexivity|].
  specialize (Hbad acc x). destruct (body acc x) as [acc'|e]; simpl in *.
  - rewrite <- Hbad. simpl. apply IH.
  - rewrite <- Hbad. reflexivity.
Qed.

Lemma panics_false {A : Type} (m : outcome A) :
  panics m = false -> exists a, m = Return a.
Proof. destruct m as [a|e]; [eauto | discriminate]. Qed.

Lemma panics_true {A : Type} (m : outcome A) :
  panics m = true -> exists e, m = Panic e.
Proof. destruct m as [a|e]; [discriminate | eauto]. Qed.

(** ** Strings *)

Lemma append_cons (c : ascii) (a b : string) :
  String c a +:+ b = String c (a +:+ b).
Proof. reflexivity. Qed.

Lemma append_empty_l (b : string) : EmptyString +:+ b = b.
Proof. reflexivity. Qed.

Ltac string_simpl := rewrite ?append_cons, ?append_empty_l; simpl.

Lemma length_append (a b : string) :
  String.length (a +:+ b) = (String.length a + String.length b)%nat.
Proof. induction a as [|c a IH]; string_simpl; [reflexivity | now rewrite IH]. Qed.

Lemma append_empty_r (a : string) : a +:+ EmptyString = a.
Proof. induction a as [|c a IH]; string_simpl; [reflexivity | now rewrite IH]. Qed.

Lemma append_assoc (a b c : string) : (a +:+ b) +:+ c = a +:+ (b +:+ c).
Proof. induction a as [|x a IH]; string_simpl; [reflexivity | now rewrite IH]. Qed.

Lemma takeS_all (s : string) : takeS (String.length s) s = s.
Proof. induction s as [|c s IH]; simpl; [reflexivity | now rewrite IH]. Qed.

Lemma takeS_append (a b : string) : takeS (String.length a) (a +:+ b) = a.
Proof. induction a as [|c a IH]; string_simpl; [now destruct b | now rewrite IH]. Qed.

Lemma dropS_append (a b : string) : dropS (String.length a) (a +:+ b) = b.
Proof. induction a as [|c a IH]; string_simpl; [now destruct b | exact IH]. Qed.

Lemma rev_app_append (s t : string) :
  String.rev_app s t = String.rev s +:+ t.
Proof.
  unfold String.rev. revert t.
  induction s as [|c s IH]; intros t; simpl; [reflexivity|].
  rewrite (IH (String c t)), (IH (String c EmptyString)).
  now rewrite append_assoc.
Qed.

Lemma rev_cons (c : ascii) (s : string) :
  String.rev (String c s) = String.rev s +:+ String c EmptyString.
Proof. unfold String.rev at 1. simpl. apply rev_app_append. Qed.

Lemma rev_append (a b : string) :
  String.rev (a +:+ b) = String.rev b +:+ String.rev a.
Proof.
  induction a as [|c a IH]; string_simpl.
  - change (String.rev EmptyString) with EmptyString. now rewrite append_empty_r.
  - now rewrite !rev_cons, IH, append_assoc.
Qed.

Lemma rev_involutive (s : string) : String.rev (String.rev s) = s.
Proof.
  induction s as [|c s IH]; [reflexivity|].
  now rewrite rev_cons, rev_append, IH.
Qed.

Lemma sliceFrom_1 (c : ascii) (s : string) : sliceFrom (String c s) 1 = Return s.
Proof.
  unfold sliceFrom, slice, len. simpl String.length.
  replace ((0 <=? 1) && (1 <=? Z.of_nat (S (String.length s)))
           && (Z.of_nat (S (String.length s)) <=? Z.of_nat (S (String.length s))))
    with true by (symmetry; rewrite !andb_true_iff, !Z.leb_le; lia).
  replace (Z.to_nat (Z.of_nat (S (String.length s)) - 1)) with (String.length s) by lia.
  simpl. now rewrite takeS_all.
Qed.

Lemma sliceFrom_1_empty : sliceFrom EmptyString 1 = Panic (SliceBoundsOutOfRange 1 0 0).
Proof. reflexivity. Qed.

(** [s[:len(s)-1]] drops the last byte of a string that has one, and panics
    on the empty string. *)
Lemma sliceTo_init (s : string) (c : ascii) :
  sliceTo (s +:+ String c EmptyString) (len (s +:+ String c EmptyString) - 1) = Return s.
Proof.
  unfold sliceTo, slice, len. rewrite length_append. simpl String.length.
  replace (Z.of_nat (String.length s + 1) - 1) with (Z.of_nat (String.length s)) by lia.
  replace ((0 <=? 0) && (0 <=? Z.of_nat (String.length s))
           && (Z.of_nat (String.length s) <=? Z.of_nat (String.length s + 1)))
    with true by (symmetry; rewrite !andb_true_iff, !Z.leb_le; lia).
  replace (Z.to_nat (Z.of_nat (String.length s) - 0)) with (String.length s) by lia.
  simpl. now rewrite takeS_append.
Qed.

Lemma sliceTo_init_empty :
  sliceTo EmptyString (len EmptyString - 1) = Panic (SliceBoundsOutOfRange 0 (-1) 0).
Proof. reflexivity. Qed.

(** Every string that is not empty is a string followed by one byte. *)
Lemma string_snoc (s : string) :
  s <> EmptyString -> exists s' c, s = s' +:+ String c EmptyString.
Proof.
  induction s as [|c s IH]; [congruence|]. intros _.
  destruct s as [|c' s].
  - exists EmptyString, c. reflexivity.
  - destruct IH as (s' & c'' & Hs); [discriminate|].
    exists (String c s'), c''. now rewrite append_cons, Hs.
Qed.

Lemma TrimSuffix_append (s suffix : string) :
  Strings.TrimSuffix (s +:+ suffix) suffix = s.
Proof.
  unfold Strings.TrimSuffix, Strings.HasSuffix, len.
  rewrite length_append.
  replace (String.length s + String.length suffix - String.length suffix)%nat
    with (String.length s) by lia.
  rewrite dropS_append, String.eqb_refl, takeS_append.
  replace (Z.of_nat (String.length suffix)
           <=? Z.of_nat (String.length s + String.length suffix)) with true
    by (symmetry; apply Z.leb_le; lia).
  reflexivity.
Qed.

(** ** The pieces of a line *)

Lemma Split_colon (text : string) :
  Strings.Split text ":" =
  beforeColon text :: match afterColon text with
                      | Some rest => Strings.Split rest ":"
                      | None => []
                      end.
Proof.
  induction text as [|c text IH]; simpl; [reflexivity|].
  destruct (Ascii.eqb c ":"); [reflexivity|].
  rewrite IH. reflexivity.
Qed.

Lemma index_0 {A : Type} (x : A) (l : list A) : index (x :: l) 0 = Return x.
Proof.
  unfold index. simpl length.
  replace ((0 <=? 0) && (0 <? Z.of_nat (S (length l)))) with true
    by (symmetry; rewrite andb_true_iff, Z.leb_le, Z.ltb_lt; lia).
  reflexivity.
Qed.

Lemma index_1 {A : Type} (x y : A) (l : list A) : index (x :: y :: l) 1 = Return y.
Proof.
  unfold index. simpl length.
  replace ((0 <=? 1) && (1 <? Z.of_nat (S (S (length l))))) with true
    by (symmetry; rewrite andb_true_iff, Z.leb_le, Z.ltb_lt; lia).
  reflexivity.
Qed.

(** [residentMemory] by cases on the pieces of the line. *)
Lemma residentMemory_other (text : string) :
  isVmRSS text = false -> residentMemory text = Return None.
Proof.
  unfold isVmRSS, residentMemory. intros H.
  rewrite Split_colon, index_0. simpl. now rewrite H.
Qed.

Lemma residentMemory_no_colon (text : string) :
  isVmRSS text = true -> afterColon text = None ->
  residentMemory text = Panic (IndexOutOfRange 1 1).
Proof.
  unfold isVmRSS, residentMemory. intros H Hc.
  rewrite Split_colon, index_0, Hc. simpl. now rewrite H.
Qed.

Lemma residentMemory_empty (text rest : string) :
  isVmRSS text = true -> afterColon text = Some rest ->
  beforeColon rest = EmptyString ->
  residentMemory text = Panic (SliceBoundsOutOfRange 1 0 0).
Proof.
  unfold isVmRSS, residentMemory. intros H Hc Hr.
  rewrite Split_colon, index_0, Hc. simpl. rewrite H.
  rewrite (Split_colon rest), index_1, Hr. reflexivity.
Qed.

Lemma residentMemory_value (text rest data : string) (c : ascii) :
  isVmRSS text = true -> afterColon text = Some rest ->
  beforeColon rest = String c data ->
  residentMemory text =
  Return (Some (Strconv.Atoi (Strings.TrimSpace (Strings.TrimSuffix data "kB")))).
Proof.
  unfold isVmRSS, residentMemory. intros H Hc Hr.
  rewrite Split_colon, index_0, Hc. simpl. rewrite H.
  rewrite (Split_colon rest), index_1, Hr.
  simpl. rewrite sliceFrom_1. reflexivity.
Qed.

(** The lines on which the body panics are those that cannot be indexed. *)
Lemma residentMemory_panics (text : string) :
  panics (residentMemory text) = negb (indexable text).
Proof.
  unfold indexable. destruct (isVmRSS text) eqn:Hk.
  - destruct (afterColon text) as [rest|] eqn:Hc.
    + destruct (beforeColon rest) as [|c data] eqn:Hr.
      * now rewrite (residentMemory_empty _ _ Hk Hc Hr).
      * now rewrite (residentMemory_value _ _ _ _ Hk Hc Hr).
    + now rewrite (residentMemory_no_colon _ Hk Hc).
  - now rewrite (residentMemory_other _ Hk).
Qed.

(** The loop body in terms of what it reads from the line. *)
Lemma parseProcessStats_body_eq (pid : Z) (stats : gmap Z Z) (log : list logEntry)
    (text : string) :
  parseProcessStats_body pid (stats, log) text =
  (m ← residentMemory text;
   Return match m with
          | None => (stats, log)
          | Some (value, None) => (<[1 := value]> stats, log)
          | Some (value, Some _) => (<[1 := value]> stats, log ++ [LogResidentMemory pid])
          end).
Proof.
  unfold parseProcessStats_body, residentMemory.
  destruct (index (Strings.Split text ":") 0) as [key|e]; simpl; [|reflexivity].
  destruct (String.eqb key "VmRSS"); [|reflexivity].
  destruct (index (Strings.Split text ":") 1) as [data|e]; simpl; [|reflexivity].
  destruct (sliceFrom data 1) as [data'|e]; simpl; [|reflexivity].
  destruct (Strconv.Atoi _) as [value [err|]]; reflexivity.
Qed.

Lemma parseProcessStats_body_panics (pid : Z) (st : gmap Z Z * list logEntry)
    (text : string) :
  panics (parseProcessStats_body pid st text) = negb (indexable text).
Proof.
  destruct st as [stats log].
  rewrite parseProcessStats_body_eq, <- residentMemory_panics.
  destruct (residentMemory text); reflexivity.
Qed.

(** ** Decimal digits *)

Lemma isDigit_range (c : ascii) :
  Strconv.isDigit c = true <-> 48 <= byteVal c <= 57.
Proof. unfold Strconv.isDigit. rewrite andb_true_iff, !Z.leb_le. tauto. Qed.

Lemma isDigit_neq (c d : ascii) :
  Strconv.isDigit c = true -> Strconv.isDigit d = false -> Ascii.eqb c d = false.
Proof.
  intros Hc Hd. apply Ascii.eqb_neq. intros ->. congruence.
Qed.

Ltac bool_false :=
  repeat match goal with
         | |- context [?a =? ?b] =>
             replace (a =? b) with false by (symmetry; apply Z.eqb_neq; lia)
         | |- context [?a <=? ?b] =>
             replace (a <=? b) with false by (symmetry; apply Z.leb_gt; lia)
         end.

Lemma digit_not_space (c : ascii) :
  Strconv.isDigit c = true ->
  Strings.asciiSpace c = false
  /\ (forall c2, Strings.space2 c c2 = false)
  /\ (forall c2 c3, Strings.space3 c c2 c3 = false)
  /\ (forall c1, Strings.space2 c1 c = false)
  /\ (forall c1 c2, Strings.space3 c1 c2 c = false).
Proof.
  rewrite isDigit_range. intros Hc.
  unfold Strings.asciiSpace, Strings.space2, Strings.space3.
  repeat split; intros; bool_false; simpl; rewrite ?andb_false_r; reflexivity.
Qed.

Lemma TrimLeftSpace_digit (c : ascii) (s : string) :
  Strconv.isDigit c = true ->
  Strings.TrimLeftSpace (String c s) = String c s.
Proof.
  intros Hc. destruct (digit_not_space c Hc) as (H1 & H2 & H3 & _).
  simpl. rewrite H1. destruct s as [|c2 s]; [reflexivity|]. rewrite H2.
  destruct s as [|c3 s]; [reflexivity|]. now rewrite H3.
Qed.

Lemma trimLeftSpaceRev_digit (c : ascii) (s : string) :
  Strconv.isDigit c = true ->
  Strings.trimLeftSpaceRev (String c s) = String c s.
Proof.
  intros Hc. destruct (digit_not_space c Hc) as (H1 & _ & _ & H2 & H3).
  simpl. rewrite H1. destruct s as [|c2 s]; [reflexivity|]. rewrite H2.
  destruct s as [|c3 s]; [reflexivity|]. now rewrite H3.
Qed.

Lemma allDigits_append (a b : string) :
  allDigits (a +:+ b) = allDigits a && allDigits b.
Proof.
  induction a as [|c a IH]; string_simpl; [reflexivity|].
  now rewrite IH, andb_assoc.
Qed.

(** White space around a number is trimmed, and nothing of the number. *)
Lemma TrimSpace_digits_blank (ds : string) :
  allDigits ds = true -> ds <> EmptyString ->
  Strings.TrimSpace (ds +:+ " ") = ds.
Proof.
  intros Hds Hne. unfold Strings.TrimSpace, Strings.TrimRightSpace.
  destruct ds as [|c ds]; [congruence|].
  pose proof Hds as Hc. simpl in Hc. apply andb_true_iff in Hc as [Hc _].
  rewrite append_cons, TrimLeftSpace_digit by exact Hc.
  rewrite <- append_cons.
  destruct (string_snoc (String c ds) Hne) as (init & d & Hinit).
  rewrite Hinit in *.
  rewrite allDigits_append in Hds. apply andb_true_iff in Hds as [_ Hd].
  simpl in Hd. rewrite andb_true_r in Hd.
  rewrite !rev_append.
  change (String.rev " ") with " ". change (String.rev (String d EmptyString))
    with (String d EmptyString).
  rewrite !append_cons, !append_empty_l.
  change (Strings.trimLeftSpaceRev (String " " (String d (String.rev init))))
    with (Strings.trimLeftSpaceRev (String d (String.rev init))).
  rewrite trimLeftSpaceRev_digit by exact Hd.
  rewrite rev_cons, rev_involutive. reflexivity.
Qed.

Lemma digitsValue_le (s : string) (n : Z) :
  allDigits s = true -> 0 <= n -> n <= digitsValue n s.
Proof.
  revert n. induction s as [|c s IH]; intros n Hs Hn; simpl in *; [lia|].
  apply andb_true_iff in Hs as [Hc Hs]. apply isDigit_range in Hc.
  specialize (IH (n * 10 + (byteVal c - 48)) Hs). lia.
Qed.

(** The digit loop of [ParseUint] computes the number the digits denote,
    as long as it fits 64 bits. *)
Lemma parseUintLoop_digits (s : string) (n : Z) :
  allDigits s = true -> 0 <= n -> digitsValue n s <= Strconv.maxUint64 ->
  Strconv.parseUintLoop s n = (digitsValue n s, None).
Proof.
  revert n. induction s as [|c s IH]; intros n Hs Hn Hmax; simpl in *; [reflexivity|].
  apply andb_true_iff in Hs as [Hc Hs]. rewrite Hc.
  pose proof (proj1 (isDigit_range c) Hc) as Hd.
  pose proof (digitsValue_le s (n * 10 + (byteVal c - 48)) Hs ltac:(lia)) as Hle.
  unfold Strconv.maxUint64 in *.
  change (2 ^ 64 - 1) with 18446744073709551615 in *.
  change ((18446744073709551615) / 10 + 1) with 1844674407370955162.
  change (2 ^ 64) with 18446744073709551616.
  destruct (n >=? 1844674407370955162) eqn:Hcut; [lia|].
  rewrite (Z.mod_small (n * 10)) by lia.
  rewrite (Z.mod_small (n * 10 + _)) by lia.
  replace (n * 10 + (byteVal c - 48) <? n * 10) with false
    by (symmetry; apply Z.ltb_ge; lia).
  replace (n * 10 + (byteVal c - 48) >? 18446744073709551615) with false
    by (symmetry; lia).
  simpl. apply IH; [exact Hs | lia | exact Hmax].
Qed.

(** [Atoi] on a string of digits that denotes a number below [2^63]. *)
Lemma Atoi_digits (ds : string) :
  allDigits ds = true -> ds <> EmptyString -> digitsValue 0 ds < 2 ^ 63 ->
  Strconv.Atoi ds = (digitsValue 0 ds, None).
Proof.
  intros Hds Hne Hmax.
  pose proof (digitsValue_le ds 0 Hds ltac:(lia)) as Hpos.
  unfold Strconv.Atoi, Strconv.ParseInt.
  destruct ds as [|c ds]; [congruence|].
  pose proof Hds as Hc. simpl in Hc. apply andb_true_iff in Hc as [Hc _].
  rewrite !(isDigit_neq c) by (exact Hc || reflexivity).
  simpl orb. cbv iota. unfold Strconv.ParseUint.
  rewrite parseUintLoop_digits; [|exact Hds|lia|unfold Strconv.maxUint64; lia].
  unfold Strconv.IntSize, Strconv.toInt64.
  change (2 ^ (64 - 1)) with (2 ^ 63).
  replace (digitsValue 0 (String c ds) >=? 2 ^ 63) with false by (symmetry; lia).
  simpl negb. cbv iota. simpl andb. cbv iota.
  rewrite Z.mod_small by lia.
  f_equal. lia.
Qed.

(** ** Decimal output *)

Lemma byteVal_digitChar (d : Z) :
  0 <= d <= 9 -> byteVal (Strconv.digitChar d) = 48 + d.
Proof.
  intros Hd. unfold byteVal, Strconv.digitChar, byte.
  rewrite N_ascii_embedding by lia. lia.
Qed.

Lemma digitsValue_append (a b : string) (n : Z) :
  digitsValue n (a +:+ b) = digitsValue (digitsValue n a) b.
Proof.
  revert n. induction a as [|c a IH]; intros n; string_simpl; [reflexivity | apply IH].
Qed.

Lemma formatBits_S (fuel : nat) (u : Z) (acc : string) :
  Strconv.formatBits (S fuel) u acc =
  if u >=? 10
  then Strconv.formatBits fuel (u / 10) (String (Strconv.digitChar (u - u / 10 * 10)) acc)
  else String (Strconv.digitChar u) acc.
Proof. reflexivity. Qed.

(** [formatBits] puts the decimal digits of [u] in front of [acc]. *)
Lemma formatBits_digits (fuel : nat) :
  forall u acc,
    0 <= u < 10 ^ Z.of_nat (S fuel) ->
    exists ds,
      Strconv.formatBits (S fuel) u acc = ds +:+ acc
      /\ allDigits ds = true /\ ds <> EmptyString /\ digitsValue 0 ds = u.
Proof.
  induction fuel as [|fuel IH]; intros u acc Hu.
  - change (10 ^ Z.of_nat 1) with 10 in Hu. simpl.
    replace (u >=? 10) with false by (symmetry; lia).
    exists (String (Strconv.digitChar u) EmptyString).
    repeat split; simpl.
    + unfold Strconv.isDigit. rewrite byteVal_digitChar by lia.
      rewrite andb_true_r. apply andb_true_iff. rewrite !Z.leb_le. lia.
    + discriminate.
    + rewrite byteVal_digitChar by lia. lia.
  - rewrite formatBits_S. destruct (u >=? 10) eqn:Hge.
    + assert (Hq : 0 <= u / 10 < 10 ^ Z.of_nat (S fuel)).
      { rewrite (Nat2Z.inj_succ (S fuel)), Z.pow_succ_r in Hu by lia.
        split; [apply Z.div_pos; lia | apply Z.div_lt_upper_bound; lia]. }
      destruct (IH (u / 10) (String (Strconv.digitChar (u - u / 10 * 10)) acc) Hq)
        as (ds & Hfmt & Hds & Hne & Hval).
      assert (Hd : 0 <= u - u / 10 * 10 <= 9).
      { pose proof (Z.mod_pos_bound u 10 ltac:(lia)).
        pose proof (Z.div_mod u 10 ltac:(lia)). lia. }
      exists (ds +:+ String (Strconv.digitChar (u - u / 10 * 10)) EmptyString).
      repeat split.
      * rewrite Hfmt, append_assoc. reflexivity.
      * rewrite allDigits_append, Hds. simpl.
        unfold Strconv.isDigit. rewrite byteVal_digitChar by lia.
        rewrite andb_true_r. apply andb_true_iff. rewrite !Z.leb_le. lia.
      * destruct ds; [congruence | discriminate].
      * rewrite digitsValue_append, Hval. simpl.
        rewrite byteVal_digitChar by lia. lia.
    + exists (String (Strconv.digitChar u) EmptyString).
      repeat split; simpl.
      * unfold Strconv.isDigit. rewrite byteVal_digitChar by lia.
        rewrite andb_true_r. apply andb_true_iff. rewrite !Z.leb_le. lia.
      * discriminate.
      * rewrite byteVal_digitChar by lia. lia.
Qed.

(** [Itoa] writes a number that is not negative in digits that denote it,
    and [Atoi] reads it back. *)
Lemma Itoa_digits (n : Z) :
  0 <= n < 2 ^ 63 ->
  allDigits (Strconv.Itoa n) = true
  /\ Strconv.Itoa n <> EmptyString
  /\ digitsValue 0 (Strconv.Itoa n) = n.
Proof.
  intros Hn. unfold Strconv.Itoa.
  replace (n <? 0) with false by (symmetry; lia).
  destruct (formatBits_digits 19 n EmptyString) as (ds & Hfmt & Hds & Hne & Hval).
  { change (10 ^ Z.of_nat 20) with 100000000000000000000.
    change (2 ^ 63) with 9223372036854775808 in Hn. lia. }
  rewrite Hfmt, append_empty_r. auto.
Qed.

Lemma Atoi_Itoa (n : Z) :
  0 <= n < 2 ^ 63 -> Strconv.Atoi (Strconv.Itoa n) = (n, None).
Proof.
  intros Hn. destruct (Itoa_digits n Hn) as (Hds & Hne & Hval).
  rewrite Atoi_digits by (rewrite ?Hval; assumption || lia).
  now rewrite Hval.
Qed.

(** ** The resident-memory line *)

Lemma beforeColon_digits (ds t : string) :
  allDigits ds = true -> beforeColon (ds +:+ t) = ds +:+ beforeColon t.
Proof.
  induction ds as [|c ds IH]; intros Hds; [reflexivity|].
  simpl in Hds. apply andb_true_iff in Hds as [Hc Hds].
  rewrite !append_cons. simpl.
  rewrite (isDigit_neq c ":" Hc eq_refl). now rewrite IH.
Qed.

Lemma isVmRSS_VmRSSLine (ds : string) : isVmRSS (VmRSSLine ds) = true.
Proof. reflexivity. Qed.

(** The line [VmRSS:<tab><digits> kB] yields the number of its digits. *)
Lemma residentMemory_VmRSSLine (ds : string) :
  allDigits ds = true -> ds <> EmptyString -> digitsValue 0 ds < 2 ^ 63 ->
  residentMemory (VmRSSLine ds) = Return (Some (digitsValue 0 ds, None)).
Proof.
  intros Hds Hne Hmax.
  rewrite (residentMemory_value (VmRSSLine ds) (tab +:+ ds +:+ " kB")
             (ds +:+ " kB") (byte 9)).
  - change (ds +:+ " kB") with (ds +:+ (" " +:+ "kB")).
    rewrite <- append_assoc, TrimSuffix_append, TrimSpace_digits_blank by assumption.
    now rewrite Atoi_digits.
  - reflexivity.
  - reflexivity.
  - unfold tab. rewrite append_cons, append_empty_l. simpl.
    rewrite beforeColon_digits by exact Hds. reflexivity.
Qed.

(** In particular the line written with [Itoa] for a number [n] that is
    not negative is well formed, with the value [n]. *)
Lemma wellFormedVmRSS_Itoa (n : Z) :
  0 <= n < 2 ^ 63 -> wellFormedVmRSS (VmRSSLine (Strconv.Itoa n)) n.
Proof.
  intros Hn. destruct (Itoa_digits n Hn) as (Hds & Hne & Hval).
  unfold wellFormedVmRSS.
  rewrite residentMemory_VmRSSLine by (rewrite ?Hval; assumption || lia).
  now rewrite Hval.
Qed.

(** ** The scanning loop of [parseProcessStats] *)

Arguments parseProcessStats_body : simpl never.

(** Lines other than VmRSS lines leave the state as it is. *)
Lemma parse_loop_other (pid : Z) (st : gmap Z Z * list logEntry) (lines : list string) :
  Forall (fun text => isVmRSS text = false) lines ->
  foldM (parseProcessStats_body pid) st lines = Return st.
Proof.
  intros H. apply foldM_skip. eapply Forall_impl; [exact H|].
  intros text Hk. destruct st as [stats log].
  now rewrite parseProcessStats_body_eq, (residentMemory_other _ Hk).
Qed.

(** The loop returns on lines that can be indexed, and only on those. *)
Lemma parse_loop_panics (pid : Z) (st : gmap Z Z * list logEntry) (lines : list string) :
  panics (foldM (parseProcessStats_body pid) st lines)
  = existsb (fun text => negb (indexable text)) lines.
Proof.
  apply foldM_panics. intros acc x. apply parseProcessStats_body_panics.
Qed.

(** The loop writes slot 1 only: whatever is stored there afterwards hides
    the difference between the final and the initial map. *)
Lemma parse_loop_slot1 (pid : Z) (lines : list string) :
  forall stats log stats' log' value,
    foldM (parseProcessStats_body pid) (stats, log) lines = Return (stats', log') ->
    <[1 := value]> stats' = <[1 := value]> stats.
Proof.
  induction lines as [|text lines IH]; intros stats log stats' log' value; simpl.
  - intros [= <- <-]. reflexivity.
  - rewrite parseProcessStats_body_eq.
    destruct (residentMemory text) as [[[v [e|]]|]|e]; simpl; try discriminate;
      intros H; apply (IH _ _ _ _ value) in H; rewrite H;
      rewrite ?insert_insert_eq; reflexivity.
Qed.

Lemma parse_loop_slot0 (pid : Z) (lines : list string) :
  forall stats log stats' log',
    foldM (parseProcessStats_body pid) (stats, log) lines = Return (stats', log') ->
    stats' !! 0 = stats !! 0.
Proof.
  intros stats log stats' log' H.
  apply (parse_loop_slot1 _ _ _ _ _ _ 0) in H.
  apply (f_equal (fun m : gmap Z Z => m !! 0)) in H.
  now rewrite !lookup_insert_ne in H by lia.
Qed.


(** The entries logged are one per VmRSS line that [Atoi] rejects, in the
    order of the lines. *)
Lemma parse_loop_log (pid : Z) (lines : list string) :
  forall stats log stats' log',
    foldM (parseProcessStats_body pid) (stats, log) lines = Return (stats', log') ->
    log' = log ++ ((fun _ => LogResidentMemory pid) <$> filter (fun l => parseFails l = true) lines).
Proof.
  induction lines as [|text lines IH]; intros stats log stats' log'; simpl.
  - intros [= <- <-]. now rewrite app_nil_r.
  - rewrite parseProcessStats_body_eq.
    destruct (residentMemory text) as [[[v [e|]]|]|e] eqn:Hm; simpl; try discriminate;
      intros H; apply IH in H; rewrite H.
    + rewrite filter_cons_True by (unfold parseFails; now rewrite Hm).
      now rewrite <- app_assoc.
    + rewrite filter_cons_False by (unfold parseFails; now rewrite Hm). reflexivity.
    + rewrite filter_cons_False by (unfold parseFails; now rewrite Hm). reflexivity.
Qed.

(** The panic of the loop is one of the two of the body. *)
Lemma parse_loop_panic_kind (pid : Z) (lines : list string) :
  forall st e,
    foldM (parseProcessStats_body pid) st lines = Panic e ->
    e = IndexOutOfRange 1 1 \/ e = SliceBoundsOutOfRange 1 0 0.
Proof.
  induction lines as [|text lines IH]; intros [stats log] e; simpl; [discriminate|].
  rewrite parseProcessStats_body_eq.
  destruct (residentMemory text) as [m|e'] eqn:Hm; simpl.
  - apply IH.
  - intros [= <-].
    pose proof (residentMemory_panics text) as Hp. rewrite Hm in Hp. simpl in Hp.
    unfold indexable in Hp. symmetry in Hp. apply negb_true_iff, orb_false_iff in Hp as [Hk Hp].
    apply negb_false_iff in Hk.
    destruct (afterColon text) as [rest|] eqn:Hc.
    + apply negb_false_iff, String.eqb_eq in Hp.
      rewrite (residentMemory_empty _ _ Hk Hc Hp) in Hm. injection Hm as <-. now right.
    + rewrite (residentMemory_no_colon _ Hk Hc) in Hm. injection Hm as <-. now left.
Qed.

(** ** [parseProcessStats] *)

Lemma parseProcessStats_eq (r : string) (pid : Z) :
  parseProcessStats r pid =
  match foldM (parseProcessStats_body pid) (<[0 := pid]> ∅, []) (Bufio.scanLines r) with
  | Return (stats, log) => Return (stats, None, log)
  | Panic e => Panic e
  end.
Proof.
  unfold parseProcessStats.
  destruct (foldM _ _ _) as [[stats log]|e]; reflexivity.
Qed.

(** The parser panics exactly on the streams with a VmRSS line that cannot
    be indexed. *)
Lemma parseProcessStats_panics (r : string) (pid : Z) :
  panics (parseProcessStats r pid)
  = existsb (fun text => negb (indexable text)) (Bufio.scanLines r).
Proof.
  rewrite parseProcessStats_eq, <- (parse_loop_panics pid (<[0 := pid]> ∅, [])).
  destruct (foldM _ _ _) as [[stats log]|e]; reflexivity.
Qed.

Lemma parseProcessStats_returns (r : string) (pid : Z) :
  Forall (fun text => indexable text = true) (Bufio.scanLines r) ->
  exists stats log, parseProcessStats r pid = Return (stats, None, log).
Proof.
  intros H. rewrite parseProcessStats_eq.
  destruct (panics_false (foldM (parseProcessStats_body pid) (<[0 := pid]> ∅, [])
                                (Bufio.scanLines r))) as [[stats log] Hf].
  - rewrite parse_loop_panics. apply not_true_is_false. intros Hex.
    apply existsb_exists in Hex as (l & Hl & Hbad).
    rewrite Forall_forall in H. apply list_elem_of_In in Hl.
    rewrite (H l Hl) in Hbad. discriminate.
  - rewrite Hf. eauto.
Qed.

(** Without a VmRSS line the record has slot 0 only. *)
Lemma parseProcessStats_no_VmRSS (r : string) (pid : Z) :
  Forall (fun text => isVmRSS text = false) (Bufio.scanLines r) ->
  parseProcessStats r pid = Return (<[0 := pid]> ∅, None, []).
Proof.
  intros H. rewrite parseProcessStats_eq, parse_loop_other by exact H. reflexivity.
Qed.

(** Slot 1 is written by every VmRSS line, whether its number converts or
    not: it is present exactly when the stream has a VmRSS line. *)
Lemma parseProcessStats_slot1_present (r : string) (pid : Z)
    (stats : gmap Z Z) (err : option error) (log : list logEntry) :
  parseProcessStats r pid = Return (stats, err, log) ->
  is_Some (stats !! 1) <-> Exists (fun text => isVmRSS text = true) (Bufio.scanLines r).
Proof.
  rewrite parseProcessStats_eq.
  generalize (Bufio.scanLines r) as lines.
  assert (Hgen : forall lines stats0 log0 stats1 log1,
             foldM (parseProcessStats_body pid) (stats0, log0) lines = Return (stats1, log1) ->
             is_Some (stats1 !! 1) <->
             is_Some (stats0 !! 1) \/ Exists (fun text => isVmRSS text = true) lines).
  { induction lines as [|text lines IH]; intros stats0 log0 stats1 log1; simpl.
    - intros [= <- <-]. rewrite Exists_nil. tauto.
    - rewrite parseProcessStats_body_eq, Exists_cons.
      destruct (isVmRSS text) eqn:Hk.
      + destruct (residentMemory text) as [[[v e]|]|e] eqn:Hm; simpl; try discriminate.
        * intros H. assert (H' : is_Some (stats1 !! 1) <->
              is_Some ((<[1 := v]> stats0) !! 1)
              \/ Exists (fun text => isVmRSS text = true) lines)
            by (destruct e; eapply IH; exact H).
          rewrite H', lookup_insert_eq. split; [intros _; right; now left|].
          intros _. left. eauto.
        * pose proof (residentMemory_panics text) as Hp. rewrite Hm in Hp.
          unfold indexable in Hp. rewrite Hk in Hp. simpl in Hp.
          intros H. apply IH in H. rewrite H.
          destruct (afterColon text) as [rest|] eqn:Hc.
          -- destruct (beforeColon rest) as [|c data] eqn:Hr.
             ++ rewrite (residentMemory_empty _ _ Hk Hc Hr) in Hm. discriminate.
             ++ rewrite (residentMemory_value _ _ _ _ Hk Hc Hr) in Hm. discriminate.
          -- discriminate.
      + rewrite (residentMemory_other _ Hk). simpl. intros H. apply IH in H.
        rewrite H. split; [intros [?|?]; auto | intros [?|[?|?]]; auto; discriminate]. }
  intros lines H.
  destruct (foldM _ _ lines) as [[stats1 log1]|e] eqn:Hf; [|discriminate].
  injection H as <- _ <-.
  rewrite (Hgen _ _ _ _ _ Hf), lookup_insert_ne, lookup_empty by lia.
  split; [intros [[? [=]]|?]; assumption | auto].
Qed.

(** C2 (the code departs from it): a VmRSS line whose number does not
    convert still writes slot 1.  The record [statusMalformed] has the line
    [VmRSS:<tab>abc kB]; [Atoi] rejects ["abc"] and returns 0, the
    assignment [stats[1], err = strconv.Atoi(data)] stores that 0 before
    the error is looked at, and the parser returns the record with slot 1
    set to 0 instead of leaving it unset. *)
Theorem parseProcessStats_malformed_memory_stored :
  residentMemory ("VmRSS:" +:+ tab +:+ "abc kB")
  = Return (Some (0, Some (ErrSyntax "Atoi" "abc")))
  /\ parseProcessStats statusMalformed 123
     = Return (<[1 := 0]> (<[0 := 123]> ∅), None, [LogResidentMemory 123]).
Proof. split; vm_compute; reflexivity. Qed.



(** C4: slot 0 of the record the parser returns is the PID it was given,
    whatever the stream holds. *)
Theorem parseProcessStats_slot0_is_pid (r : string) (pid : Z)
    (stats : gmap Z Z) (err : option error) (log : list logEntry) :
  parseProcessStats r pid = Return (stats, err, log) ->
  stats !! 0 = Some pid.
Proof.
  rewrite parseProcessStats_eq.
  destruct (foldM _ _ _) as [[stats' log']|e] eqn:Hf; [|discriminate].
  intros [= <- _ _].
  rewrite (parse_loop_slot0 _ _ _ _ _ _ Hf). apply lookup_insert_eq.
Qed.

Lemma parseProcessStats_slot0_is_pid_witness :
  parseProcessStats statusRepeated 4242
  = Return (<[1 := 2048]> (<[0 := 4242]> ∅), None, [LogResidentMemory 4242])
  /\ (<[1 := 2048]> (<[0 := 4242]> (∅ : gmap Z Z))) !! 0 = Some 4242.
Proof.
  split; [reflexivity|].
  apply (parseProcessStats_slot0_is_pid statusRepeated 4242 _ None
           [LogResidentMemory 4242]).
  reflexivity.
Defined.



(** C7: the error the parser returns is nil on every stream; a VmRSS line
    whose number does not convert is logged, once per such line of the
    whole stream, and the scan goes on. *)
Theorem parseProcessStats_error_nil (r : string) (pid : Z)
    (stats : gmap Z Z) (err : option error) (log : list logEntry) :
  parseProcessStats r pid = Return (stats, err, log) ->
  err = None
  /\ log = (fun _ => LogResidentMemory pid)
             <$> filter (fun text => parseFails text = true) (Bufio.scanLines r).
Proof.
  rewrite parseProcessStats_eq.
  destruct (foldM _ _ _) as [[stats' log']|e] eqn:Hf; [|discriminate].
  intros [= <- <- <-]. split; [reflexivity|].
  now rewrite (parse_loop_log _ _ _ _ _ _ Hf).
Qed.

Lemma parseProcessStats_error_nil_witness :
  parseProcessStats statusRepeated 123
  = Return (<[1 := 2048]> (<[0 := 123]> ∅), None, [LogResidentMemory 123])
  /\ (None : option error) = None
  /\ [LogResidentMemory 123]
     = (fun _ => LogResidentMemory 123)
         <$> filter (fun text => parseFails text = true) (Bufio.scanLines statusRepeated).
Proof.
  split; [reflexivity|].
  apply (parseProcessStats_error_nil statusRepeated 123
           (<[1 := 2048]> (<[0 := 123]> ∅))).
  reflexivity.
Defined.

(** C9: the parser indexes the pieces of a VmRSS line without a check.  A
    line whose text before the first colon is [VmRSS] and that has no
    colon, or nothing after the colon, makes the parser panic: the index
    [procStats[1]] or the slice [data[1:]] is out of range. *)
Theorem parseProcessStats_panics_on_bare_VmRSS (r : string) (pid : Z) (line : string) :
  In line (Bufio.scanLines r) ->
  beforeColon line = "VmRSS" ->
  afterColon line = None \/ afterColon line = Some EmptyString ->
  exists e, parseProcessStats r pid = Panic e
            /\ (e = IndexOutOfRange 1 1 \/ e = SliceBoundsOutOfRange 1 0 0).
Proof.
  intros Hin Hkey Hrest.
  assert (Hbad : indexable line = false).
  { unfold indexable, isVmRSS. rewrite Hkey. simpl.
    destruct Hrest as [-> | ->]; reflexivity. }
  destruct (panics_true (parseProcessStats r pid)) as [e He].
  { rewrite parseProcessStats_panics. apply existsb_exists.
    exists line. split; [exact Hin | now rewrite Hbad]. }
  exists e. split; [exact He|].
  rewrite parseProcessStats_eq in He.
  destruct (foldM _ _ _) as [[stats log]|e'] eqn:Hf; [discriminate|].
  injection He as ->. exact (parse_loop_panic_kind _ _ _ _ Hf).
Qed.

Lemma parseProcessStats_panics_on_bare_VmRSS_witness :
  exists e, parseProcessStats statusNoColon 123 = Panic e
            /\ (e = IndexOutOfRange 1 1 \/ e = SliceBoundsOutOfRange 1 0 0).
Proof.
  apply (parseProcessStats_panics_on_bare_VmRSS statusNoColon 123 "VmRSS").
  - right. left. reflexivity.
  - reflexivity.
  - left. reflexivity.
Defined.

(** The two streams of C9, evaluated. *)
Lemma parseProcessStats_no_colon :
  parseProcessStats statusNoColon 123 = Panic (IndexOutOfRange 1 1).
Proof. reflexivity. Qed.

Lemma parseProcessStats_no_value :
  parseProcessStats statusNoValue 123 = Panic (SliceBoundsOutOfRange 1 0 0).
Proof. reflexivity. Qed.

(** ** The first loop of [Update] *)

Section UpdateLoop.

Variable ReadFile : string -> string + error.

Arguments Update_procPID_body : simpl never.

(** The loop body by cases on the PID file. *)
Lemma Update_procPID_body_unreadable (st : gmap string Z * list logEntry)
    (procName : string) (err : error) :
  ReadFile (pidFile procName) = inr err ->
  Update_procPID_body ReadFile st procName = Return st.
Proof. unfold Update_procPID_body. destruct st. now intros ->. Qed.

Lemma Update_procPID_body_empty (st : gmap string Z * list logEntry)
    (procName : string) :
  ReadFile (pidFile procName) = inl EmptyString ->
  Update_procPID_body ReadFile st procName = Panic (SliceBoundsOutOfRange 0 (-1) 0).
Proof. unfold Update_procPID_body. destruct st. now intros ->. Qed.

Lemma Update_procPID_body_readable (procPID : gmap string Z) (log : list logEntry)
    (procName content : string) (c : ascii) :
  ReadFile (pidFile procName) = inl (content +:+ String c EmptyString) ->
  Update_procPID_body ReadFile (procPID, log) procName =
  Return (<[procName := (Strconv.Atoi content).1]> procPID,
          match (Strconv.Atoi content).2 with
          | Some e => log ++ [LogPidConversion procName e]
          | None => log
          end).
Proof.
  unfold Update_procPID_body. intros ->. rewrite sliceTo_init. simpl.
  destruct (Strconv.Atoi content) as [pid [e|]]; reflexivity.
Qed.

Lemma recordedPID_readable (procName content : string) (c : ascii) :
  ReadFile (pidFile procName) = inl (content +:+ String c EmptyString) ->
  recordedPID ReadFile procName = Some (Strconv.Atoi content).1.
Proof. unfold recordedPID. intros ->. now rewrite sliceTo_init. Qed.

(** A step of the loop either panics, on an empty PID file, or records
    the PID of the name, if it has one. *)
Lemma Update_procPID_body_cases (procPID : gmap string Z) (log : list logEntry)
    (procName : string) :
  (emptyPidFile ReadFile procName = true
   /\ Update_procPID_body ReadFile (procPID, log) procName
      = Panic (SliceBoundsOutOfRange 0 (-1) 0))
  \/ (emptyPidFile ReadFile procName = false
      /\ exists log',
          Update_procPID_body ReadFile (procPID, log) procName
          = Return (match recordedPID ReadFile procName with
                    | Some pid => <[procName := pid]> procPID
                    | None => procPID
                    end, log')).
Proof.
  unfold emptyPidFile.
  destruct (ReadFile (pidFile procName)) as [pidBytes|err] eqn:Hf.
  - destruct pidBytes as [|c0 s0] eqn:Hb.
    + left. split; [reflexivity|]. now apply Update_procPID_body_empty.
    + right. split; [reflexivity|].
      destruct (string_snoc (String c0 s0)) as (content & c & Hs); [discriminate|].
      rewrite Hs in Hf.
      rewrite (Update_procPID_body_readable _ _ _ _ _ Hf),
        (recordedPID_readable _ _ _ Hf). eauto.
  - right. split; [reflexivity|].
    rewrite (Update_procPID_body_unreadable _ _ _ Hf).
    unfold recordedPID. rewrite Hf. eauto.
Qed.

(** The loop panics exactly when a registered name has an empty PID
    file, and the panic is that of the slice [pidBytes[:len(pidBytes)-1]]. *)
Lemma Update_loop_panics (names : list string) :
  forall st,
    panics (foldM (Update_procPID_body ReadFile) st names)
    = existsb (emptyPidFile ReadFile) names.
Proof.
  intros st. apply foldM_panics. clear st. intros [procPID log] procName.
  destruct (Update_procPID_body_cases procPID log procName)
    as [[-> ->] | [-> [log' ->]]]; reflexivity.
Qed.

Lemma Update_loop_panic_kind (names : list string) :
  forall st e,
    foldM (Update_procPID_body ReadFile) st names = Panic e ->
    e = SliceBoundsOutOfRange 0 (-1) 0.
Proof.
  induction names as [|procName names IH]; intros [procPID log] e; simpl;
    [discriminate|].
  destruct (Update_procPID_body_cases procPID log procName)
    as [[_ ->] | [_ [log' ->]]]; simpl.
  - now intros [= <-].
  - apply IH.
Qed.

(** The map the loop builds: it holds the recorded PID of every
    registered name that has one, and what it held before for the rest. *)
Lemma Update_loop_lookup (names : list string) :
  forall procPID log procPID' log' procName,
    foldM (Update_procPID_body ReadFile) (procPID, log) names = Return (procPID', log') ->
    procPID' !! procName =
    if bool_decide (procName ∈ names)
    then match recordedPID ReadFile procName with
         | Some pid => Some pid
         | None => procPID !! procName
         end
    else procPID !! procName.
Proof.
  induction names as [|name names IH]; intros procPID log procPID' log' procName; simpl.
  - intros [= <- <-]. reflexivity.
  - destruct (Update_procPID_body_cases procPID log name)
      as [[_ ->] | [_ [log1 ->]]]; simpl; [discriminate|].
    intros H. rewrite (IH _ _ _ _ procName H). clear H IH.
    destruct (decide (procName = name)) as [->|Hne].
    + rewrite (bool_decide_eq_true_2 (name ∈ name :: names)) by left.
      destruct (recordedPID ReadFile name) as [pid|] eqn:Hrec.
      * rewrite lookup_insert_eq. now destruct (bool_decide _).
      * now destruct (bool_decide _).
    + assert (Hother : match recordedPID ReadFile name with
                       | Some pid => <[name := pid]> procPID
                       | None => procPID
                       end !! procName = procPID !! procName).
      { destruct (recordedPID ReadFile name); [now rewrite lookup_insert_ne|reflexivity]. }
      rewrite Hother.
      destruct (bool_decide (procName ∈ names)) eqn:Hin.
      * apply bool_decide_eq_true_1 in Hin.
        rewrite (bool_decide_eq_true_2 (procName ∈ name :: names)) by now right.
        reflexivity.
      * apply bool_decide_eq_false_1 in Hin.
        rewrite (bool_decide_eq_false_2 (procName ∈ name :: names)); [reflexivity|].
        intros [?|?]%elem_of_cons; contradiction.
Qed.

End UpdateLoop.

(** The map of names to PIDs that [Update] builds, entry by entry. *)
Lemma Update_procPID_lookup (ReadFile : string -> string + error)
    (names : list string) (procPID : gmap string Z) (log : list logEntry)
    (procName : string) :
  Update_procPID ReadFile names = Return (procPID, log) ->
  procPID !! procName =
  if bool_decide (procName ∈ names) then recordedPID ReadFile procName else None.
Proof.
  unfold Update_procPID. intros H.
  rewrite (Update_loop_lookup ReadFile names _ _ _ _ procName H), lookup_empty.
  destruct (bool_decide _); [|reflexivity].
  now destruct (recordedPID ReadFile procName).
Qed.

Lemma Update_procPID_returns (ReadFile : string -> string + error) (names : list string) :
  (forall procName, In procName names -> ReadFile (pidFile procName) <> inl EmptyString) ->
  exists procPID log, Update_procPID ReadFile names = Return (procPID, log).
Proof.
  intros Hne. unfold Update_procPID.
  destruct (panics_false (foldM (Update_procPID_body ReadFile) (∅, []) names))
    as [[procPID log] H]; [|eauto].
  rewrite Update_loop_panics. apply not_true_is_false. intros Hex.
  apply existsb_exists in Hex as (procName & Hin & Hempty).
  apply (Hne procName Hin). unfold emptyPidFile in Hempty.
  destruct (ReadFile (pidFile procName)) as [[|c s]|err]; congruence.
Qed.

(** C1 (the code departs from it): a PID file whose content is not a
    number does not make the loop skip the name.  With the registered names
    hekad and nginx, the PID file of hekad holding ["abc"] and a line feed
    and that of nginx ["456"] and a line feed, the failure of [Atoi] is
    logged, and the statement [procPID[procName] = int(pid)] that follows
    the [if] stores the 0 that [Atoi] returned: the map has two entries
    where one name has a valid PID file. *)
Theorem Update_procPID_malformed_pid_recorded :
  Update_procPID varRun ["hekad"; "nginx"]
  = Return (<["nginx" := 456]> (<["hekad" := 0]> ∅),
            [LogPidConversion "hekad" (ErrSyntax "Atoi" "abc")])
  /\ size (<["nginx" := 456]> (<["hekad" := 0]> (∅ : gmap string Z))) = 2%nat.
Proof. split; vm_compute; reflexivity. Qed.

(** C8: for a registered name with a readable PID file, the loop converts
    the content without its last byte, whatever that byte is, and records
    the result; the file that holds ["456"] and a line feed gives the PID
    456. *)
Theorem Update_procPID_strips_last_byte (ReadFile : string -> string + error)
    (names : list string) :
  (forall procName, In procName names -> ReadFile (pidFile procName) <> inl EmptyString) ->
  exists procPID log,
    Update_procPID ReadFile names = Return (procPID, log)
    /\ (forall procName content c,
          In procName names ->
          ReadFile (pidFile procName) = inl (content +:+ String c EmptyString) ->
          procPID !! procName = Some (Strconv.Atoi content).1)
    /\ (forall procName,
          In procName names ->
          ReadFile (pidFile procName) = inl ("456" +:+ newline) ->
          procPID !! procName = Some 456).
Proof.
  intros Hne.
  destruct (Update_procPID_returns ReadFile names Hne) as (procPID & log & H).
  exists procPID, log. split; [exact H|].
  assert (Hgen : forall procName content c,
             In procName names ->
             ReadFile (pidFile procName) = inl (content +:+ String c EmptyString) ->
             procPID !! procName = Some (Strconv.Atoi content).1).
  { intros procName content c Hin Hfile.
    rewrite (Update_procPID_lookup _ _ _ _ procName H).
    rewrite bool_decide_eq_true_2 by now apply list_elem_of_In.
    now apply recordedPID_readable with c. }
  split; [exact Hgen|].
  intros procName Hin Hfile. exact (Hgen procName "456" (byte 10) Hin Hfile).
Qed.

Lemma Update_procPID_strips_last_byte_witness :
  exists procPID log,
    Update_procPID varRun ["nginx"; "sshd"] = Return (procPID, log)
    /\ (forall procName content c,
          In procName ["nginx"; "sshd"] ->
          varRun (pidFile procName) = inl (content +:+ String c EmptyString) ->
          procPID !! procName = Some (Strconv.Atoi content).1)
    /\ (forall procName,
          In procName ["nginx"; "sshd"] ->
          varRun (pidFile procName) = inl ("456" +:+ newline) ->
          procPID !! procName = Some 456).
Proof.
  apply (Update_procPID_strips_last_byte varRun ["nginx"; "sshd"]).
  intros procName [<- | [<- | []]]; discriminate.
Defined.

(** The PID file of C8, evaluated: four bytes, the digits 4, 5, 6 and a
    line feed. *)
Lemma Update_procPID_456 :
  String.length ("456" +:+ newline) = 4%nat
  /\ Update_procPID varRun ["nginx"] = Return (<["nginx" := 456]> ∅, []).
Proof. split; vm_compute; reflexivity. Qed.

(** C10: the loop slices the content of a PID file without looking at its
    length.  It panics, on the slice [pidBytes[:len(pidBytes)-1]], exactly
    when a registered name has a readable PID file of zero bytes; the name
    is not skipped. *)
Theorem Update_procPID_panics_iff_empty_pid_file
    (ReadFile : string -> string + error) (names : list string) :
  Update_procPID ReadFile names = Panic (SliceBoundsOutOfRange 0 (-1) 0)
  <-> exists procName, In procName names /\ ReadFile (pidFile procName) = inl EmptyString.
Proof.
  unfold Update_procPID. split.
  - intros H.
    assert (Hp : panics (foldM (Update_procPID_body ReadFile) (∅, []) names) = true)
      by now rewrite H.
    rewrite Update_loop_panics in Hp.
    apply existsb_exists in Hp as (procName & Hin & Hempty).
    exists procName. split; [exact Hin|].
    unfold emptyPidFile in Hempty.
    destruct (ReadFile (pidFile procName)) as [[|c s]|err]; congruence.
  - intros (procName & Hin & Hfile).
    destruct (panics_true (foldM (Update_procPID_body ReadFile) (∅, []) names))
      as [e He].
    + rewrite Update_loop_panics. apply existsb_exists.
      exists procName. split; [exact Hin|].
      unfold emptyPidFile. now rewrite Hfile.
    + rewrite He. f_equal. exact (Update_loop_panic_kind _ _ _ _ He).
Qed.

(** An empty PID file among the registered names, evaluated. *)
Lemma Update_procPID_empty_pid_file :
  Update_procPID varRun ["nginx"; "cron"; "hekad"]
  = Panic (SliceBoundsOutOfRange 0 (-1) 0).
Proof. reflexivity. Qed.

(** ** [getProcessStats] *)

Section GetProcessStats.

Variable Open : string -> string + error.
Variable procFilePath : string -> string.

Local Abbreviation range := (getProcessStats_range Open procFilePath).

(** One step of the loop, by cases on the opening of the status file. *)
Lemma range_open_failed (procName : string) (pid : Z) (entries : list (string * Z))
    (procStats : gmap string (gmap Z Z)) (log : list logEntry) (err : error) :
  Open (statusFile procFilePath pid) = inr err ->
  range ((procName, pid) :: entries) procStats log
  = Return (procStats, Some err, log ++ [LogOpenFailed (statusFile procFilePath pid)]).
Proof. simpl. now intros ->. Qed.

(** When the loop gets past an entry, the status file of the entry was
    opened and parsed, without an error, and its record stored. *)
Lemma range_step (procName : string) (pid : Z) (entries : list (string * Z))
    (procStats procStats' : gmap string (gmap Z Z)) (log log' : list logEntry) :
  range ((procName, pid) :: entries) procStats log = Return (procStats', None, log') ->
  exists content stats parseLog,
    Open (statusFile procFilePath pid) = inl content
    /\ parseProcessStats content pid = Return (stats, None, parseLog)
    /\ range entries (<[procName := stats]> procStats) (log ++ parseLog ++ [])
       = Return (procStats', None, log').
Proof.
  simpl. destruct (Open (statusFile procFilePath pid)) as [content|err];
    [|discriminate].
  pose proof (parseProcessStats_eq content pid) as Heq.
  destruct (parseProcessStats content pid) as [[[stats err] parseLog]|e] eqn:Hp;
    simpl; [|discriminate].
  destruct (foldM _ _ _) as [[stats' parseLog']|e]; [|discriminate].
  injection Heq as -> -> ->.
  intros H. exists content, stats', parseLog'. auto.
Qed.

(** The loop over a list of entries in two parts. *)
Lemma range_app (done rest : list (string * Z)) :
  forall procStats log,
    range (done ++ rest) procStats log =
    match range done procStats log with
    | Return (procStats', None, log') => range rest procStats' log'
    | res => res
    end.
Proof.
  induction done as [|[procName pid] done IH]; intros procStats log; [reflexivity|].
  simpl. destruct (Open (statusFile procFilePath pid)) as [content|err];
    [|reflexivity].
  destruct (parseProcessStats content pid) as [[[stats err] parseLog]|e];
    simpl; [apply IH | reflexivity].
Qed.

(** Names that are not among the entries keep what the map held. *)
Lemma range_lookup_other (entries : list (string * Z)) :
  forall procStats log procStats' err log' name,
    range entries procStats log = Return (procStats', err, log') ->
    name ∉ entries.*1 ->
    procStats' !! name = procStats !! name.
Proof.
  induction entries as [|[procName pid] entries IH];
    intros procStats log procStats' err log' name; simpl.
  - now intros [= <- _ _].
  - intros H Hnotin. apply not_elem_of_cons in Hnotin as [Hne Hnotin].
    destruct (Open (statusFile procFilePath pid)) as [content|e].
    + destruct (parseProcessStats content pid) as [[[stats err'] parseLog]|e];
        simpl in H; [|discriminate].
      rewrite (IH _ _ _ _ _ name H Hnotin). now rewrite lookup_insert_ne.
    + now injection H as <- _ _.
Qed.

(** After a loop without a failure every entry has its record. *)
Lemma range_lookup_done (done : list (string * Z)) :
  forall procStats log procStats' log' name pid,
    NoDup done.*1 ->
    range done procStats log = Return (procStats', None, log') ->
    (name, pid) ∈ done ->
    exists content stats parseLog,
      Open (statusFile procFilePath pid) = inl content
      /\ parseProcessStats content pid = Return (stats, None, parseLog)
      /\ procStats' !! name = Some stats.
Proof.
  induction done as [|[procName pid'] done IH];
    intros procStats log procStats' log' name pid Hnodup H Hin.
  - now apply elem_of_nil in Hin.
  - rewrite fmap_cons in Hnodup. apply NoDup_cons in Hnodup as [Hfresh Hnodup].
    apply range_step in H as (content & stats & parseLog & Hopen & Hparse & H).
    apply elem_of_cons in Hin as [[= -> ->] | Hin].
    + exists content, stats, parseLog. repeat split; [assumption..|].
      rewrite (range_lookup_other _ _ _ _ _ _ procName H Hfresh).
      apply lookup_insert_eq.
    + exact (IH _ _ _ _ _ _ Hnodup H Hin).
Qed.

(** When the status file of one of the entries does not open, the loop of
    [getProcessStats] ends in an error, or in a panic before it. *)
Lemma range_fails (entries : list (string * Z)) :
  forall procStats log,
    (exists procName pid e, (procName, pid) ∈ entries
                            /\ Open (statusFile procFilePath pid) = inr e) ->
    (exists p, range entries procStats log = Panic p)
    \/ (exists procStats' e log', range entries procStats log = Return (procStats', Some e, log')).
Proof.
  induction entries as [|[name' pid'] entries IH];
    intros procStats log (procName & pid & e & Hin & Hopen).
  - now apply elem_of_nil in Hin.
  - simpl. destruct (Open (statusFile procFilePath pid')) as [content|e'] eqn:Hopen'.
    + destruct (parseProcessStats content pid') as [[[stats perr] parseLog]|p];
        simpl; [|eauto].
      apply IH. apply elem_of_cons in Hin as [[= -> ->] | Hin]; [congruence|eauto 6].
    + right. eauto.
Qed.

(** C6: when the opening of a status file fails, [getProcessStats]
    returns at once: the run over the entries in the order [entries] returns
    the error of the opening, together with the records of the processes
    handled before it, and every result of the call, in whatever order, is
    an error (or a panic before the failed opening is reached).  The
    process whose file failed to open and the processes that come after it
    in the order of the iteration have no record in the map returned. *)
Theorem getProcessStats_open_failure (procPID : gmap string Z)
    (entries done rest : list (string * Z)) (procName : string) (pid : Z)
    (err : error) (partial : gmap string (gmap Z Z)) (log : list logEntry) :
  entries ≡ₚ map_to_list procPID ->
  entries = done ++ (procName, pid) :: rest ->
  range done ∅ [] = Return (partial, None, log) ->
  Open (statusFile procFilePath pid) = inr err ->
  range entries ∅ []
  = Return (partial, Some err, log ++ [LogOpenFailed (statusFile procFilePath pid)])
  /\ getProcessStats Open procFilePath procPID
       (Return (partial, Some err, log ++ [LogOpenFailed (statusFile procFilePath pid)]))
  /\ (forall res, getProcessStats Open procFilePath procPID res ->
        (exists p, res = Panic p)
        \/ (exists partial' err' log', res = Return (partial', Some err', log')))
  /\ (forall name p, (name, p) ∈ done ->
        exists content stats parseLog,
          Open (statusFile procFilePath p) = inl content
          /\ parseProcessStats content p = Return (stats, None, parseLog)
          /\ partial !! name = Some stats)
  /\ partial !! procName = None
  /\ (forall name p, (name, p) ∈ rest -> partial !! name = None).
Proof.
  intros Hperm Hentries Hdone Hopen.
  assert (Hnodup : NoDup (done ++ (procName, pid) :: rest).*1).
  { rewrite <- Hentries, Hperm. apply NoDup_fst_map_to_list. }
  rewrite fmap_app, fmap_cons in Hnodup.
  apply NoDup_app in Hnodup as (Hnd & Hdisj & _).
  assert (Habsent : forall name, name ∈ (procName :: rest.*1) -> partial !! name = None).
  { intros name Hin.
    rewrite (range_lookup_other _ _ _ _ _ _ name Hdone); [apply lookup_empty|].
    intros Hd. exact (Hdisj name Hd Hin). }
  assert (Hrun : range entries ∅ []
                 = Return (partial, Some err,
                           log ++ [LogOpenFailed (statusFile procFilePath pid)])).
  { rewrite Hentries, range_app, Hdone. now apply range_open_failed. }
  assert (Hin : (procName, pid) ∈ map_to_list procPID).
  { rewrite <- Hperm, Hentries. apply elem_of_app. right. left. }
  split; [exact Hrun|]. split; [|split; [|repeat split]].
  - exists entries. split; [exact Hperm | exact Hrun].
  - intros res (entries' & Hperm' & <-).
    apply range_fails. exists procName, pid, err.
    split; [now rewrite Hperm' | exact Hopen].
  - intros name p Hin'. exact (range_lookup_done _ _ _ _ _ _ _ Hnd Hdone Hin').
  - apply Habsent. left.
  - intros name p Hin'. apply Habsent. right.
    apply list_elem_of_fmap. exists (name, p). auto.
Qed.

End GetProcessStats.

(** The call of C6 on an example: the status file of the process 456 opens,
    that of the process 0 does not, and the process 789 is not reached. *)
Lemma getProcessStats_open_failure_witness :
  getProcessStats_range procFS procRoot
    [("nginx", 456); ("hekad", 0); ("sshd", 789)] ∅ []
  = Return (<["nginx" := <[1 := 11708]> (<[0 := 456]> ∅)]> ∅,
            Some (PathError "open" "/proc/0/status"),
            [LogOpenFailed "/proc/0/status"])
  /\ getProcessStats procFS procRoot resolved
       (Return (<["nginx" := <[1 := 11708]> (<[0 := 456]> ∅)]> ∅,
                Some (PathError "open" "/proc/0/status"),
                [LogOpenFailed "/proc/0/status"]))
  /\ (forall res, getProcessStats procFS procRoot resolved res ->
        (exists p, res = Panic p)
        \/ (exists partial' err' log', res = Return (partial', Some err', log')))
  /\ (forall name p, (name, p) ∈ [("nginx", 456)] ->
        exists content stats parseLog,
          procFS (statusFile procRoot p) = inl content
          /\ parseProcessStats content p = Return (stats, None, parseLog)
          /\ (<["nginx" := <[1 := 11708]> (<[0 := 456]> ∅)]> (∅ : gmap string (gmap Z Z))) !! name = Some stats)
  /\ (<["nginx" := <[1 := 11708]> (<[0 := 456]> ∅)]> (∅ : gmap string (gmap Z Z))) !! "hekad" = None
  /\ (forall name p, (name, p) ∈ [("sshd", 789)] ->
        (<["nginx" := <[1 := 11708]> (<[0 := 456]> ∅)]> (∅ : gmap string (gmap Z Z))) !! name = None).
Proof.
  apply (getProcessStats_open_failure procFS procRoot resolved
           [("nginx", 456); ("hekad", 0); ("sshd", 789)]
           [("nginx", 456)] [("sshd", 789)] "hekad" 0
           (PathError "open" "/proc/0/status")
           (<["nginx" := <[1 := 11708]> (<[0 := 456]> ∅)]> ∅) []).
  - vm_compute.
    exact (Permutation_app_comm [("nginx", 456); ("hekad", 0)] [("sshd", 789)]).
  - reflexivity.
  - reflexivity.
  - reflexivity.
Defined.

(* ===================================================================== *)
(** * Further properties of the collector *)
(* ===================================================================== *)

(** ** The list of registered processes *)

Lemma Split_not_nil (s : string) (sep : ascii) : Strings.Split s sep <> [].
Proof.
  destruct s as [|c s]; simpl; [discriminate|].
  destruct (Ascii.eqb c sep); [discriminate|].
  destruct (Strings.Split s sep); discriminate.
Qed.

Lemma Join_cons (piece : string) (pieces : list string) (sep : ascii) :
  pieces <> [] ->
  Join (piece :: pieces) sep = piece +:+ String sep (Join pieces sep).
Proof. destruct pieces; [congruence | reflexivity]. Qed.

Lemma Join_Split (s : string) (sep : ascii) : Join (Strings.Split s sep) sep = s.
Proof.
  induction s as [|c s IH]; [reflexivity|]. simpl.
  pose proof (Split_not_nil s sep) as Hne.
  destruct (Ascii.eqb c sep) eqn:Hc.
  - apply Ascii.eqb_eq in Hc as ->.
    rewrite Join_cons by exact Hne. now rewrite IH.
  - destruct (Strings.Split s sep) as [|piece pieces]; [congruence|].
    destruct pieces as [|piece' pieces].
    + simpl in *. now rewrite IH.
    + rewrite Join_cons by discriminate. rewrite Join_cons in IH by discriminate.
      rewrite append_cons. now rewrite IH.
Qed.

Lemma Split_pieces (s : string) (sep : ascii) :
  Forall (fun piece => occurs sep piece = false) (Strings.Split s sep).
Proof.
  induction s as [|c s IH]; simpl.
  - repeat constructor.
  - destruct (Ascii.eqb c sep) eqn:Hc.
    + constructor; [reflexivity | exact IH].
    + destruct (Strings.Split s sep) as [|piece pieces]; [repeat constructor; simpl; now rewrite Hc|].
      inversion IH as [|? ? Hpiece Hpieces]; subst.
      constructor; [simpl; now rewrite Hc, Hpiece | exact Hpieces].
Qed.

(** X1: [NewProcStatsCollector] never fails and registers the pieces of the
    flag between its commas: there is at least one name, no name has a
    comma, and the names joined by commas are the flag again.  (An empty
    flag therefore registers one name, the empty one.) *)
Theorem NewProcStatsCollector_registers_flag (Float64 : Type)
    (Namespace registeredProcesses : string) :
  let c := @NewProcStatsCollector Float64 Namespace registeredProcesses in
  c.2 = None
  /\ registeredProcessesList c.1 <> []
  /\ Forall (fun procName => occurs "," procName = false) (registeredProcessesList c.1)
  /\ Join (registeredProcessesList c.1) "," = registeredProcesses.
Proof.
  simpl. repeat split.
  - apply Split_not_nil.
  - apply Split_pieces.
  - apply Join_Split.
Qed.

(** ** More on [parseProcessStats] *)

(** X2: a status record without a VmRSS line, the empty record included,
    gives the record with slot 0 only: no error, nothing logged, no
    panic. *)
Theorem parseProcessStats_without_VmRSS (r : string) (pid : Z) :
  Forall (fun text => isVmRSS text = false) (Bufio.scanLines r) ->
  parseProcessStats r pid = Return (<[0 := pid]> ∅, None, [])
  /\ (<[0 := pid]> (∅ : gmap Z Z)) !! 1 = None.
Proof.
  intros H. split; [|reflexivity].
  rewrite parseProcessStats_eq, parse_loop_other by exact H. reflexivity.
Qed.

Lemma parseProcessStats_without_VmRSS_witness :
  parseProcessStats ("Name:" +:+ tab +:+ "hekad" +:+ newline +:+
                     "VmPeak:" +:+ tab +:+ "   20480 kB" +:+ newline +:+
                     "Threads:" +:+ tab +:+ "1" +:+ newline) 7
  = Return (<[0 := 7]> ∅, None, [])
  /\ (<[0 := 7]> (∅ : gmap Z Z)) !! 1 = None.
Proof.
  apply (parseProcessStats_without_VmRSS
           ("Name:" +:+ tab +:+ "hekad" +:+ newline +:+
            "VmPeak:" +:+ tab +:+ "   20480 kB" +:+ newline +:+
            "Threads:" +:+ tab +:+ "1" +:+ newline) 7).
  repeat constructor.
Defined.

(** The loop never writes a slot other than 1. *)
Lemma parse_loop_slots (pid : Z) (lines : list string) (stats stats' : gmap Z Z)
    (log log' : list logEntry) (k : Z) :
  foldM (parseProcessStats_body pid) (stats, log) lines = Return (stats', log') ->
  k <> 1 -> stats' !! k = stats !! k.
Proof.
  intros H Hk.
  apply (parse_loop_slot1 _ _ _ _ _ _ 0) in H.
  apply (f_equal (fun m : gmap Z Z => m !! k)) in H.
  now rewrite !lookup_insert_ne in H by congruence.
Qed.

Lemma parseProcessStats_slots (r : string) (pid : Z) (stats : gmap Z Z)
    (err : option error) (log : list logEntry) (k : Z) :
  parseProcessStats r pid = Return (stats, err, log) ->
  is_Some (stats !! k) -> k = 0 \/ k = 1.
Proof.
  rewrite parseProcessStats_eq.
  destruct (foldM _ _ _) as [[stats' log']|e] eqn:Hf; [|discriminate].
  intros [= <- _ _] Hk.
  destruct (decide (k = 1)) as [->|Hne]; [now right|]. left.
  rewrite (parse_loop_slots _ _ _ _ _ _ k Hf Hne) in Hk.
  destruct (decide (k = 0)) as [->|Hne0]; [reflexivity|].
  rewrite lookup_insert_ne, lookup_empty in Hk by congruence.
  now destruct Hk.
Qed.

(** X3: the record that the parser returns has no slot other than 0 and
    1, whatever the stream holds. *)
Theorem parseProcessStats_two_slots (r : string) (pid : Z) (stats : gmap Z Z)
    (err : option error) (log : list logEntry) :
  parseProcessStats r pid = Return (stats, err, log) ->
  forall k, is_Some (stats !! k) -> k = 0 \/ k = 1.
Proof. intros H k. exact (parseProcessStats_slots r pid stats err log k H). Qed.

Lemma parseProcessStats_two_slots_witness :
  parseProcessStats statusRepeated 123
  = Return (<[1 := 2048]> (<[0 := 123]> ∅), None, [LogResidentMemory 123])
  /\ forall k, is_Some ((<[1 := 2048]> (<[0 := 123]> (∅ : gmap Z Z))) !! k) -> k = 0 \/ k = 1.
Proof.
  split; [reflexivity|].
  apply (parseProcessStats_two_slots statusRepeated 123 _ None [LogResidentMemory 123]).
  reflexivity.
Defined.







(** ** More on the first loop of [Update] *)

Lemma Update_procPID_no_empty (ReadFile : string -> string + error)
    (names : list string) (procPID : gmap string Z) (log : list logEntry)
    (procName : string) :
  Update_procPID ReadFile names = Return (procPID, log) ->
  In procName names -> ReadFile (pidFile procName) <> inl EmptyString.
Proof.
  unfold Update_procPID. intros H Hin Hfile.
  assert (Hp : panics (foldM (Update_procPID_body ReadFile) (∅, []) names) = false)
    by now rewrite H.
  rewrite Update_loop_panics in Hp.
  assert (Hex : existsb (emptyPidFile ReadFile) names = true); [|congruence].
  apply existsb_exists. exists procName. split; [exact Hin|].
  unfold emptyPidFile. now rewrite Hfile.
Qed.

(** X5: the map of names to PIDs has an entry exactly for the registered
    names whose PID file can be read; a name whose PID file is missing or
    unreadable, like a name that is not registered, has none. *)
Theorem Update_procPID_entries (ReadFile : string -> string + error)
    (names : list string) (procPID : gmap string Z) (log : list logEntry)
    (procName : string) :
  Update_procPID ReadFile names = Return (procPID, log) ->
  is_Some (procPID !! procName)
  <-> In procName names /\ exists pidBytes, ReadFile (pidFile procName) = inl pidBytes.
Proof.
  intros H. rewrite (Update_procPID_lookup _ _ _ _ procName H).
  destruct (bool_decide (procName ∈ names)) eqn:Hin.
  - apply bool_decide_eq_true_1, list_elem_of_In in Hin.
    pose proof (Update_procPID_no_empty _ _ _ _ _ H Hin) as Hne.
    unfold recordedPID.
    destruct (ReadFile (pidFile procName)) as [pidBytes|err].
    + destruct (string_snoc pidBytes) as (content & c & ->); [congruence|].
      rewrite sliceTo_init. split; eauto.
    + split; [intros [? [=]] | intros [_ [? [=]]]].
  - apply bool_decide_eq_false_1 in Hin. rewrite list_elem_of_In in Hin.
    split; [intros [? [=]] | tauto].
Qed.

Lemma Update_procPID_entries_witness :
  is_Some ((<["nginx" := 456]> (∅ : gmap string Z)) !! "sshd")
  <-> In "sshd" ["nginx"; "sshd"]
      /\ exists pidBytes, varRun (pidFile "sshd") = inl pidBytes.
Proof.
  apply (Update_procPID_entries varRun ["nginx"; "sshd"] _ []).
  reflexivity.
Defined.

(** X6: a PID file that holds a PID written by [Itoa], followed by a line
    feed, resolves to that PID: for every PID from 0 to the largest [int]
    the loop reads back the number that was written. *)
Theorem Update_procPID_reads_Itoa (ReadFile : string -> string + error)
    (names : list string) (procPID : gmap string Z) (log : list logEntry)
    (procName : string) (pid : Z) :
  Update_procPID ReadFile names = Return (procPID, log) ->
  In procName names ->
  ReadFile (pidFile procName) = inl (Strconv.Itoa pid +:+ newline) ->
  0 <= pid < 2 ^ 63 ->
  procPID !! procName = Some pid.
Proof.
  intros H Hin Hfile Hpid.
  rewrite (Update_procPID_lookup _ _ _ _ procName H).
  rewrite bool_decide_eq_true_2 by now apply list_elem_of_In.
  unfold newline in Hfile.
  rewrite (recordedPID_readable _ _ _ _ Hfile), Atoi_Itoa by exact Hpid.
  reflexivity.
Qed.

Lemma Update_procPID_reads_Itoa_witness :
  (<["nginx" := 456]> (∅ : gmap string Z)) !! "nginx" = Some 456.
Proof.
  apply (Update_procPID_reads_Itoa varRun ["nginx"; "sshd"] _ [] "nginx" 456).
  - reflexivity.
  - left. reflexivity.
  - reflexivity.
  - split; [discriminate | reflexivity].
Defined.

(** ** More on [getProcessStats] *)

Section GetProcessStatsResults.

Variable Open : string -> string + error.
Variable procFilePath : string -> string.

Local Abbreviation range := (getProcessStats_range Open procFilePath).

(** A result of the loop comes from a first part of the entries that went
    through, followed, when there is an error, by the entry whose status
    file did not open. *)
Lemma range_inv (entries : list (string * Z)) :
  forall procStats log procStats' err log',
    range entries procStats log = Return (procStats', err, log') ->
    exists done rest logDone,
      entries = done ++ rest
      /\ range done procStats log = Return (procStats', None, logDone)
      /\ match err with
         | None => rest = []
         | Some e => exists procName pid rest',
                       rest = (procName, pid) :: rest'
                       /\ Open (statusFile procFilePath pid) = inr e
         end.
Proof.
  induction entries as [|[procName pid] entries IH];
    intros procStats log procStats' err log' H.
  - simpl in H. injection H as <- <- <-.
    exists [], [], log. auto.
  - simpl in H.
    destruct (Open (statusFile procFilePath pid)) as [content|e] eqn:Hopen.
    + destruct (parseProcessStats content pid) as [[[stats perr] parseLog]|e] eqn:Hp;
        simpl in H; [|discriminate].
      apply IH in H as (done & rest & logDone & -> & Hdone & Herr).
      exists ((procName, pid) :: done), rest, logDone.
      split; [reflexivity|]. split; [|exact Herr].
      simpl. rewrite Hopen, Hp. simpl. exact Hdone.
    + injection H as <- <- <-.
      exists [], ((procName, pid) :: entries), log.
      split; [reflexivity|]. split; [reflexivity|]. eauto.
Qed.

(** The loop goes through entries whose status files open and can be
    indexed. *)
Lemma range_returns (entries : list (string * Z)) :
  forall procStats log,
    Forall (fun entry => exists content,
                Open (statusFile procFilePath entry.2) = inl content
                /\ Forall (fun text => indexable text = true) (Bufio.scanLines content))
           entries ->
    exists procStats' log', range entries procStats log = Return (procStats', None, log').
Proof.
  induction entries as [|[procName pid] entries IH]; intros procStats log H.
  - simpl. eauto.
  - apply Forall_cons in H as [(content & Hopen & Hlines) H]. simpl in Hopen.
    destruct (parseProcessStats_returns content pid Hlines) as (stats & parseLog & Hp).
    simpl. rewrite Hopen, Hp. simpl. apply IH. exact H.
Qed.

Lemma entries_of_map (procPID : gmap string Z) (entries : list (string * Z)) :
  entries ≡ₚ map_to_list procPID ->
  NoDup entries.*1
  /\ (forall procName pid, (procName, pid) ∈ entries <-> procPID !! procName = Some pid).
Proof.
  intros Hperm. split.
  - rewrite Hperm. apply NoDup_fst_map_to_list.
  - intros procName pid. rewrite Hperm. apply elem_of_map_to_list.
Qed.

(** The call when every status file opens and can be indexed. *)
Lemma getProcessStats_all_open (procPID : gmap string Z) :
  (forall procName pid, procPID !! procName = Some pid ->
     exists content, Open (statusFile procFilePath pid) = inl content
                     /\ Forall (fun text => indexable text = true) (Bufio.scanLines content)) ->
  forall res, getProcessStats Open procFilePath procPID res ->
    exists processStats log,
      res = Return (processStats, None, log)
      /\ forall procName,
           match procPID !! procName with
           | Some pid =>
               exists content stats parseLog,
                 Open (statusFile procFilePath pid) = inl content
                 /\ parseProcessStats content pid = Return (stats, None, parseLog)
                 /\ processStats !! procName = Some stats
           | None => processStats !! procName = None
           end.
Proof.
  intros Hall res (entries & Hperm & Hres).
  destruct (entries_of_map procPID entries Hperm) as [Hnodup Hentries].
  destruct (range_returns entries ∅ []) as (processStats & log & Hrange).
  { apply Forall_forall. intros [procName pid] Hin. simpl.
    apply Hentries in Hin. exact (Hall procName pid Hin). }
  exists processStats, log. split; [now rewrite <- Hres|].
  intros procName. destruct (procPID !! procName) as [pid|] eqn:Hlookup.
  - apply Hentries in Hlookup.
    exact (range_lookup_done Open procFilePath entries _ _ _ _ _ _ Hnodup Hrange Hlookup).
  - rewrite (range_lookup_other Open procFilePath entries _ _ _ _ _ procName Hrange);
      [apply lookup_empty|].
    intros Hin. apply list_elem_of_fmap in Hin as ([name pid] & -> & Hin).
    apply Hentries in Hin. simpl in *. congruence.
Qed.

(** X7: when the status file of every resolved process opens and has no
    VmRSS line that cannot be indexed, [getProcessStats] returns no error
    and the record of every resolved process, and of no other name: the
    map returned is the same in whatever order the processes are visited. *)
Theorem getProcessStats_complete (procPID : gmap string Z) :
  (forall procName pid, procPID !! procName = Some pid ->
     exists content, Open (statusFile procFilePath pid) = inl content
                     /\ Forall (fun text => indexable text = true) (Bufio.scanLines content)) ->
  forall res, getProcessStats Open procFilePath procPID res ->
    exists processStats log,
      res = Return (processStats, None, log)
      /\ forall procName,
           match procPID !! procName with
           | Some pid =>
               exists content stats parseLog,
                 Open (statusFile procFilePath pid) = inl content
                 /\ parseProcessStats content pid = Return (stats, None, parseLog)
                 /\ processStats !! procName = Some stats
           | None => processStats !! procName = None
           end.
Proof. exact (getProcessStats_all_open procPID). Qed.

(** What a result of [getProcessStats] tells about the status files. *)
Lemma getProcessStats_result (procPID : gmap string Z)
    (processStats : gmap string (gmap Z Z)) (err : option error) (log : list logEntry) :
  getProcessStats Open procFilePath procPID (Return (processStats, err, log)) ->
  (forall procName stats, processStats !! procName = Some stats ->
     exists pid content parseLog,
       procPID !! procName = Some pid
       /\ Open (statusFile procFilePath pid) = inl content
       /\ parseProcessStats content pid = Return (stats, None, parseLog))
  /\ (err = None ->
      forall procName, is_Some (processStats !! procName) <-> is_Some (procPID !! procName))
  /\ (forall e, err = Some e ->
      exists procName pid,
        procPID !! procName = Some pid
        /\ Open (statusFile procFilePath pid) = inr e
        /\ processStats !! procName = None).
Proof.
  intros (entries & Hperm & Hres).
  destruct (entries_of_map procPID entries Hperm) as [Hnodup Hentries].
  destruct (range_inv entries _ _ _ _ _ Hres) as (done & rest & logDone & -> & Hdone & Herr).
  rewrite fmap_app in Hnodup. apply NoDup_app in Hnodup as (Hnd & Hdisj & _).
  assert (Hrecord : forall procName stats, processStats !! procName = Some stats ->
            exists pid, (procName, pid) ∈ done).
  { intros procName stats Hlookup.
    destruct (decide (procName ∈ done.*1)) as [Hin|Hnotin].
    - apply list_elem_of_fmap in Hin as ([name pid] & -> & Hin). eauto.
    - rewrite (range_lookup_other Open procFilePath done _ _ _ _ _ procName Hdone Hnotin),
        lookup_empty in Hlookup. discriminate. }
  repeat split.
  - intros procName stats Hlookup.
    destruct (Hrecord procName stats Hlookup) as [pid Hin].
    destruct (range_lookup_done Open procFilePath done _ _ _ _ _ _ Hnd Hdone Hin)
      as (content & stats' & parseLog & Hopen & Hparse & Hlookup').
    exists pid, content, parseLog. repeat split.
    + apply Hentries, elem_of_app. now left.
    + exact Hopen.
    + congruence.
  - intros [stats Hlookup]. destruct (Hrecord procName stats Hlookup) as [pid Hin].
    exists pid. apply Hentries, elem_of_app. now left.
  - intros [pid Hlookup]. subst err. subst rest. rewrite app_nil_r in Hentries.
    apply Hentries in Hlookup.
    destruct (range_lookup_done Open procFilePath done _ _ _ _ _ _ Hnd Hdone Hlookup)
      as (content & stats & parseLog & _ & _ & Hstats).
    eauto.
  - intros e ->. destruct Herr as (procName & pid & rest' & -> & Hopen).
    exists procName, pid. repeat split.
    + apply Hentries, elem_of_app. right. left.
    + exact Hopen.
    + rewrite (range_lookup_other Open procFilePath done _ _ _ _ _ procName Hdone);
        [apply lookup_empty|].
      intros Hin. apply (Hdisj procName Hin). simpl. left.
Qed.

(** X8: whatever [getProcessStats] returns, every record in the map is the
    record parsed from the status file of that resolved process.  Without
    an error the map has a record for every resolved process; an error is
    the error of opening the status file of a resolved process, which has
    no record. *)
Theorem getProcessStats_sound (procPID : gmap string Z)
    (processStats : gmap string (gmap Z Z)) (err : option error) (log : list logEntry) :
  getProcessStats Open procFilePath procPID (Return (processStats, err, log)) ->
  (forall procName stats, processStats !! procName = Some stats ->
     exists pid content parseLog,
       procPID !! procName = Some pid
       /\ Open (statusFile procFilePath pid) = inl content
       /\ parseProcessStats content pid = Return (stats, None, parseLog))
  /\ (err = None ->
      forall procName, is_Some (processStats !! procName) <-> is_Some (procPID !! procName))
  /\ (forall e, err = Some e ->
      exists procName pid,
        procPID !! procName = Some pid
        /\ Open (statusFile procFilePath pid) = inr e
        /\ processStats !! procName = None).
Proof. exact (getProcessStats_result procPID processStats err log). Qed.

End GetProcessStatsResults.

Lemma getProcessStats_complete_witness :
  procFS (statusFile procRoot 456) = inl statusRecord
  /\ forall res, getProcessStats procFS procRoot (<["nginx" := 456]> ∅) res ->
    exists processStats log,
      res = Return (processStats, None, log)
      /\ forall procName,
           match (<["nginx" := 456]> (∅ : gmap string Z)) !! procName with
           | Some pid =>
               exists content stats parseLog,
                 procFS (statusFile procRoot pid) = inl content
                 /\ parseProcessStats content pid = Return (stats, None, parseLog)
                 /\ processStats !! procName = Some stats
           | None => processStats !! procName = None
           end.
Proof.
  split; [reflexivity|].
  apply (getProcessStats_complete procFS procRoot (<["nginx" := 456]> ∅)).
  intros procName pid H.
  apply lookup_insert_Some in H as [[<- <-] | [_ H]].
  - exists statusRecord. split; [reflexivity | repeat constructor].
  - rewrite lookup_empty in H. discriminate.
Defined.

Lemma getProcessStats_sound_witness :
  (forall procName stats,
     (<["nginx" := <[1 := 11708]> (<[0 := 456]> ∅)]> (∅ : gmap string (gmap Z Z)))
       !! procName = Some stats ->
     exists pid content parseLog,
       resolved !! procName = Some pid
       /\ procFS (statusFile procRoot pid) = inl content
       /\ parseProcessStats content pid = Return (stats, None, parseLog))
  /\ (Some (PathError "open" "/proc/0/status") = None ->
      forall procName,
        is_Some ((<["nginx" := <[1 := 11708]> (<[0 := 456]> ∅)]>
                    (∅ : gmap string (gmap Z Z))) !! procName)
        <-> is_Some (resolved !! procName))
  /\ (forall e, Some (PathError "open" "/proc/0/status") = Some e ->
      exists procName pid,
        resolved !! procName = Some pid
        /\ procFS (statusFile procRoot pid) = inr e
        /\ (<["nginx" := <[1 := 11708]> (<[0 := 456]> ∅)]>
              (∅ : gmap string (gmap Z Z))) !! procName = None).
Proof.
  apply (getProcessStats_sound procFS procRoot resolved _ _
           [LogOpenFailed "/proc/0/status"]).
  exists [("nginx", 456); ("hekad", 0); ("sshd", 789)]. split.
  - vm_compute.
    exact (Permutation_app_comm [("nginx", 456); ("hekad", 0)] [("sshd", 789)]).
  - reflexivity.
Defined.

(** ** The loops of [Update] that set the gauges *)

Section UpdateEmit.

Variable Float64 : Type.
Variable float64 : Z -> Float64.
Variables opts0 opts1 : GaugeOpts.

Local Abbreviation two a b := [GaugeVec opts0 a; @GaugeVec Float64 opts1 b].

(** With the two gauge vectors of the collector, a slot 0 or 1 sets a
    gauge of the first or of the second vector. *)
Lemma emit_body_two (procName : string) (a b : gmap string Float64) (k value : Z) :
  k = 0 \/ k = 1 ->
  Update_emit_body Float64 float64 None procName (two a b) (k, value)
  = Return (two (setGauge float64 procName (if decide (k = 0) then Some value else None) a)
                (setGauge float64 procName (if decide (k = 1) then Some value else None) b),
            None).
Proof. intros [-> | ->]; reflexivity. Qed.

Lemma emit_stats_two (procName : string) (slots : list (Z * Z)) :
  forall a b,
    NoDup slots.*1 ->
    Forall (fun kv => kv.1 = 0 \/ kv.1 = 1) slots ->
    Update_emit_stats Float64 float64 None procName slots (two a b)
    = Return (two (setGauge float64 procName ((list_to_map slots : gmap Z Z) !! 0) a)
                  (setGauge float64 procName ((list_to_map slots : gmap Z Z) !! 1) b),
              None).
Proof.
  induction slots as [|[k value] slots IH]; intros a b Hnodup Hkeys; [reflexivity|].
  rewrite fmap_cons in Hnodup. apply NoDup_cons in Hnodup as [Hfresh Hnodup].
  apply Forall_cons in Hkeys as [Hk Hkeys]. simpl in Hk, Hfresh.
  cbn [Update_emit_stats]. rewrite emit_body_two by exact Hk. simpl.
  rewrite IH by assumption. cbn [list_to_map foldr].
  apply not_elem_of_list_to_map_1 in Hfresh.
  destruct Hk as [-> | ->].
  - rewrite lookup_insert_eq, lookup_insert_ne by lia.
    rewrite Hfresh. reflexivity.
  - rewrite lookup_insert_eq, lookup_insert_ne by lia.
    rewrite Hfresh. reflexivity.
Qed.

(** The inner loop over the slots of a record of the parser, in any
    order. *)
Lemma emit_stats_record (procName : string) (stats : gmap Z Z) (slots : list (Z * Z))
    (a b : gmap string Float64) :
  (forall k, is_Some (stats !! k) -> k = 0 \/ k = 1) ->
  slots ≡ₚ map_to_list stats ->
  Update_emit_stats Float64 float64 None procName slots (two a b)
  = Return (two (setGauge float64 procName (stats !! 0) a)
                (setGauge float64 procName (stats !! 1) b), None).
Proof.
  intros Hkeys Hperm.
  assert (Hnodup : NoDup slots.*1) by (rewrite Hperm; apply NoDup_fst_map_to_list).
  rewrite emit_stats_two.
  - rewrite (list_to_map_proper slots (map_to_list stats)) by assumption.
    now rewrite list_to_map_to_list.
  - exact Hnodup.
  - apply Forall_forall. intros [k value] Hin. simpl.
    rewrite Hperm in Hin. apply elem_of_map_to_list in Hin. apply Hkeys. eauto.
Qed.

Lemma lookup_setGauge_eq (procName : string) (slot : option Z)
    (children : gmap string Float64) :
  setGauge float64 procName slot children !! procName =
  match slot with
  | Some value => Some (float64 value)
  | None => children !! procName
  end.
Proof. destruct slot; simpl; [apply lookup_insert_eq | reflexivity]. Qed.

Lemma lookup_setGauge_ne (procName name : string) (slot : option Z)
    (children : gmap string Float64) :
  procName <> name ->
  setGauge float64 procName slot children !! name = children !! name.
Proof. intros Hne. destruct slot; simpl; [now apply lookup_insert_ne | reflexivity]. Qed.

(** The outer loop over the records of [getProcessStats], in any order:
    no error, and the gauges of the processes that have a record set. *)
Lemma emit_records (outer : list (string * gmap Z Z)) :
  forall (records : list (string * list (Z * Z))) (a b : gmap string Float64),
    Forall2 (fun entry record =>
               entry.1 = record.1 /\ record.2 ≡ₚ map_to_list entry.2) outer records ->
    NoDup outer.*1 ->
    Forall (fun entry => forall k, is_Some (entry.2 !! k) -> k = 0 \/ k = 1) outer ->
    exists a' b',
      Update_emit Float64 float64 None records (two a b) = Return (two a' b', None)
      /\ (forall name, a' !! name = gaugeAfter float64 0 (list_to_map outer) a name)
      /\ (forall name, b' !! name = gaugeAfter float64 1 (list_to_map outer) b name).
Proof.
  induction outer as [|[procName stats] outer IH]; intros records a b Hrecords Hnodup Hkeys.
  - apply Forall2_nil_inv_l in Hrecords as ->.
    exists a, b. repeat split; intros name; unfold gaugeAfter; simpl;
      now rewrite lookup_empty.
  - apply Forall2_cons_inv_l in Hrecords
      as ([name' slots] & records' & [Hname Hslots] & Hrecords & ->).
    simpl in Hname, Hslots. subst name'.
    rewrite fmap_cons in Hnodup. apply NoDup_cons in Hnodup as [Hfresh Hnodup].
    apply Forall_cons in Hkeys as [Hk Hkeys]. simpl in Hk, Hfresh.
    destruct (IH records' (setGauge float64 procName (stats !! 0) a)
                (setGauge float64 procName (stats !! 1) b) Hrecords Hnodup Hkeys)
      as (a' & b' & Hemit & Ha & Hb).
    exists a', b'. split.
    + cbn [Update_emit]. rewrite (emit_stats_record procName stats) by assumption.
      simpl. exact Hemit.
    + apply not_elem_of_list_to_map_1 in Hfresh.
      split; intros name; [rewrite Ha | rewrite Hb];
        unfold gaugeAfter; cbn [list_to_map foldr];
        (destruct (decide (procName = name)) as [<-|Hne];
         [ rewrite lookup_setGauge_eq, lookup_insert_eq, Hfresh; reflexivity
         | rewrite lookup_setGauge_ne, lookup_insert_ne by exact Hne; reflexivity ]).
Qed.

End UpdateEmit.

(** [Atoi] returns 0 with a syntax error. *)
Lemma Atoi_syntax_zero (s : string) :
  (Strconv.Atoi s).2 = Some (ErrSyntax "Atoi" s) -> (Strconv.Atoi s).1 = 0.
Proof.
  unfold Strconv.Atoi, Strconv.ParseInt.
  destruct s as [|c s]; [reflexivity|].
  destruct (Strconv.ParseUint _) as [un [[|]|]]; [reflexivity| |].
  - destruct (negb _ && _); [discriminate|].
    destruct (_ && _); discriminate.
  - destruct (negb _ && _); [discriminate|].
    destruct (_ && _); discriminate.
Qed.

(** ** [Update] as a whole *)

Lemma parseProcessStats_result_slot0 (r : string) (pid : Z) (stats : gmap Z Z)
    (err : option error) (log : list logEntry) :
  parseProcessStats r pid = Return (stats, err, log) -> stats !! 0 = Some pid.
Proof.
  rewrite parseProcessStats_eq.
  destruct (foldM _ _ _) as [[stats' log']|e] eqn:Hf; [|discriminate].
  intros [= <- _ _].
  rewrite (parse_loop_slot0 _ _ _ _ _ _ Hf). apply lookup_insert_eq.
Qed.

Lemma parseProcessStats_panic_kind (r : string) (pid : Z) (e : runtimeError) :
  parseProcessStats r pid = Panic e ->
  e = IndexOutOfRange 1 1 \/ e = SliceBoundsOutOfRange 1 0 0.
Proof.
  rewrite parseProcessStats_eq.
  destruct (foldM _ _ _) as [[stats log]|e'] eqn:Hf; [discriminate|].
  intros [= <-]. exact (parse_loop_panic_kind _ _ _ _ Hf).
Qed.

Lemma CollectAll_two {Float64 : Type} (opts0 opts1 : GaugeOpts)
    (a b : gmap string Float64) (ch : list (Metric Float64)) :
  CollectAll Float64 [GaugeVec opts0 a; GaugeVec opts1 b] ch ->
  forall opts name value,
    (opts, name, value) ∈ ch
    <-> (opts = opts0 /\ a !! name = Some value)
        \/ (opts = opts1 /\ b !! name = Some value).
Proof.
  intros Hall opts name value.
  inversion Hall as [|? ? sent0 ch0 Hsent0 Hrest]; subst.
  inversion Hrest as [|? ? sent1 ch1 Hsent1 Hnil]; subst.
  inversion Hnil; subst. simpl in Hsent0, Hsent1.
  rewrite app_nil_r, elem_of_app, Hsent0, Hsent1, !list_elem_of_fmap.
  split.
  - intros [([n v] & [= -> -> ->] & Hin) | ([n v] & [= -> -> ->] & Hin)];
      apply elem_of_map_to_list in Hin; auto.
  - intros [[-> Hin] | [-> Hin]]; [left | right];
      exists (name, value); split; try reflexivity; now apply elem_of_map_to_list.
Qed.

(** What the two vectors send, as a list: every gauge once. *)
Lemma CollectAll_two_once {Float64 : Type} (opts0 opts1 : GaugeOpts)
    (a b : gmap string Float64) (ch : list (Metric Float64)) :
  CollectAll Float64 [GaugeVec opts0 a; GaugeVec opts1 b] ch ->
  ch ≡ₚ ((fun child : string * Float64 => (opts0, child.1, child.2)) <$> map_to_list a)
        ++ ((fun child : string * Float64 => (opts1, child.1, child.2)) <$> map_to_list b).
Proof.
  intros Hall.
  inversion Hall as [|? ? sent0 ch0 Hsent0 Hrest]; subst.
  inversion Hrest as [|? ? sent1 ch1 Hsent1 Hnil]; subst.
  inversion Hnil; subst. simpl in Hsent0, Hsent1.
  now rewrite app_nil_r, Hsent0, Hsent1.
Qed.

Section UpdateWhole.

Variable Float64 : Type.
Variable float64 : Z -> Float64.
Variable ReadFile : string -> string + error.
Variable Open : string -> string + error.
Variable procFilePath : string -> string.

Local Abbreviation range := (getProcessStats_range Open procFilePath).
Local Abbreviation update := (Update Float64 float64 ReadFile Open procFilePath).

Lemma range_panic_kind (entries : list (string * Z)) :
  forall procStats log p,
    range entries procStats log = Panic p ->
    p = IndexOutOfRange 1 1 \/ p = SliceBoundsOutOfRange 1 0 0.
Proof.
  induction entries as [|[procName pid] entries IH]; intros procStats log p; simpl;
    [discriminate|].
  destruct (Open (statusFile procFilePath pid)) as [content|e]; [|discriminate].
  destruct (parseProcessStats content pid) as [[[stats perr] parseLog]|p'] eqn:Hp; simpl.
  - apply IH.
  - intros [= <-]. exact (parseProcessStats_panic_kind _ _ _ Hp).
Qed.

(** The records that [getProcessStats] returns without an error, seen from
    the loops that set the gauges. *)
Lemma records_of_result (procPID : gmap string Z)
    (processStats : gmap string (gmap Z Z)) (log : list logEntry) :
  getProcessStats Open procFilePath procPID (Return (processStats, None, log)) ->
  (forall procName stats, processStats !! procName = Some stats ->
     (forall k, is_Some (stats !! k) -> k = 0 \/ k = 1)
     /\ exists pid, procPID !! procName = Some pid /\ stats !! 0 = Some pid)
  /\ (forall procName, processStats !! procName = None -> procPID !! procName = None).
Proof.
  intros H.
  destruct (getProcessStats_result Open procFilePath _ _ _ _ H) as (Hsound & Hdom & _).
  split.
  - intros procName stats Hlookup.
    destruct (Hsound procName stats Hlookup) as (pid & content & parseLog & Hpid & _ & Hp).
    split.
    + intros k. exact (parseProcessStats_slots _ _ _ _ _ k Hp).
    + exists pid. split; [exact Hpid|]. exact (parseProcessStats_result_slot0 _ _ _ _ _ Hp).
  - intros procName Hnone.
    destruct (procPID !! procName) as [pid|] eqn:Hpid; [|reflexivity].
    assert (Hs : is_Some (processStats !! procName))
      by (apply (Hdom eq_refl procName); eauto).
    rewrite Hnone in Hs. now destruct Hs.
Qed.

(** The loops that set the gauges, on the records of [getProcessStats] and
    the two gauge vectors of the collector. *)
Lemma emit_result (procPID : gmap string Z) (processStats : gmap string (gmap Z Z))
    (log : list logEntry) (records : list (string * list (Z * Z)))
    (opts0 opts1 : GaugeOpts) (a b : gmap string Float64) :
  getProcessStats Open procFilePath procPID (Return (processStats, None, log)) ->
  emissionOrder processStats records ->
  exists a' b',
    Update_emit Float64 float64 None records [GaugeVec opts0 a; GaugeVec opts1 b]
    = Return ([GaugeVec opts0 a'; GaugeVec opts1 b'], None)
    /\ (forall name, a' !! name = match procPID !! name with
                                  | Some pid => Some (float64 pid)
                                  | None => a !! name
                                  end)
    /\ (forall name, b' !! name = gaugeAfter float64 1 processStats b name).
Proof.
  intros Hstats (outer & Hperm & Hrecords).
  destruct (records_of_result _ _ _ Hstats) as [Hrec Hnone].
  assert (Hnodup : NoDup outer.*1) by (rewrite Hperm; apply NoDup_fst_map_to_list).
  assert (Hmap : (list_to_map outer : gmap string (gmap Z Z)) = processStats).
  { rewrite (list_to_map_proper outer (map_to_list processStats)) by assumption.
    apply list_to_map_to_list. }
  destruct (emit_records Float64 float64 opts0 opts1 outer records a b Hrecords Hnodup)
    as (a' & b' & Hemit & Ha & Hb).
  { apply Forall_forall. intros [procName stats] Hin. simpl.
    rewrite Hperm in Hin. apply elem_of_map_to_list in Hin.
    exact (proj1 (Hrec procName stats Hin)). }
  rewrite Hmap in Ha, Hb.
  exists a', b'. split; [exact Hemit|]. split; [|exact Hb].
  intros name. rewrite Ha. unfold gaugeAfter.
  destruct (processStats !! name) as [stats|] eqn:Hlookup; simpl.
  - destruct (Hrec name stats Hlookup) as [_ (pid & -> & ->)]. reflexivity.
  - now rewrite (Hnone name Hlookup).
Qed.

(** A call of [Update] when a status file does not open. *)
Lemma Update_result_open_failed (c : procstatsCollector Float64)
    (procPID : gmap string Z) (log : list logEntry)
    (procName : string) (pid : Z) (e : error) :
  Update_procPID ReadFile (registeredProcessesList c) = Return (procPID, log) ->
  procPID !! procName = Some pid ->
  Open (statusFile procFilePath pid) = inr e ->
  forall res, update c res ->
    (exists p, res = Panic p)
    \/ (exists e' log', res = Return (metrics c, [], Some (CouldntGetProcessStats e'), log')).
Proof.
  intros Hresolve Hpid Hopen res Hres.
  unfold Update in Hres. rewrite Hresolve in Hres.
  destruct Hres as (stats & (entries & Hperm & Hrange) & Hres).
  destruct (range_fails Open procFilePath entries ∅ [])
    as [[p Hp] | (procStats' & e' & log' & He)].
  - exists procName, pid, e. split; [|exact Hopen].
    rewrite Hperm. now apply elem_of_map_to_list.
  - rewrite Hp in Hrange. subst stats. eauto.
  - rewrite He in Hrange. subst stats. eauto.
Qed.

(** X9: when the status file of a resolved process does not open, [Update]
    sets no gauge and sends nothing: it returns the error "couldn't get
    process stats" with the vectors as they were (or it panics, on a status
    record visited before, that cannot be indexed). *)
Theorem Update_open_failure (c : procstatsCollector Float64)
    (procPID : gmap string Z) (log : list logEntry)
    (procName : string) (pid : Z) (e : error) :
  Update_procPID ReadFile (registeredProcessesList c) = Return (procPID, log) ->
  procPID !! procName = Some pid ->
  Open (statusFile procFilePath pid) = inr e ->
  forall res, update c res ->
    (exists p, res = Panic p)
    \/ (exists e' log', res = Return (metrics c, [], Some (CouldntGetProcessStats e'), log')).
Proof. exact (Update_result_open_failed c procPID log procName pid e). Qed.

(** X14: a registered PID file whose content [Atoi] rejects as no number
    is recorded as the PID 0, and [getProcessStats] then opens the status
    file of the process 0.  When that file does not open, the whole call of
    [Update] fails: no gauge is set and nothing is sent, for any of the
    registered processes. *)
Theorem Update_malformed_pid_file (c : procstatsCollector Float64)
    (procName content : string) (last : ascii) (e : error) :
  In procName (registeredProcessesList c) ->
  ReadFile (pidFile procName) = inl (content +:+ String last EmptyString) ->
  (Strconv.Atoi content).2 = Some (ErrSyntax "Atoi" content) ->
  Open (statusFile procFilePath 0) = inr e ->
  forall res, update c res ->
    (exists p, res = Panic p)
    \/ (exists e' log', res = Return (metrics c, [], Some (CouldntGetProcessStats e'), log')).
Proof.
  intros Hin Hfile Hatoi Hopen res Hres.
  destruct (Update_procPID ReadFile (registeredProcessesList c))
    as [[procPID log]|p] eqn:Hresolve.
  - apply (Update_result_open_failed c procPID log procName 0 e Hresolve); [|exact Hopen|exact Hres].
    rewrite (Update_procPID_lookup _ _ _ _ procName Hresolve).
    rewrite bool_decide_eq_true_2 by now apply list_elem_of_In.
    rewrite (recordedPID_readable _ _ _ _ Hfile).
    now rewrite (Atoi_syntax_zero content).
  - left. unfold Update in Hres. rewrite Hresolve in Hres. eauto.
Qed.

(** A call of [Update] that returns no error. *)
Lemma Update_result_two (c : procstatsCollector Float64)
    (opts0 opts1 : GaugeOpts) (a b : gmap string Float64)
    (metrics' : list (Collector Float64)) (ch : list (Metric Float64))
    (log : list logEntry) :
  metrics c = [GaugeVec opts0 a; GaugeVec opts1 b] ->
  update c (Return (metrics', ch, None, log)) ->
  exists procPID resolveLog processStats statsLog a' b',
    Update_procPID ReadFile (registeredProcessesList c) = Return (procPID, resolveLog)
    /\ getProcessStats Open procFilePath procPID (Return (processStats, None, statsLog))
    /\ metrics' = [GaugeVec opts0 a'; GaugeVec opts1 b']
    /\ (forall name, a' !! name = match procPID !! name with
                                  | Some pid => Some (float64 pid)
                                  | None => a !! name
                                  end)
    /\ (forall name, b' !! name = gaugeAfter float64 1 processStats b name)
    /\ (forall opts name value,
          (opts, name, value) ∈ ch
          <-> (opts = opts0 /\ a' !! name = Some value)
              \/ (opts = opts1 /\ b' !! name = Some value))
    /\ ch ≡ₚ ((fun child : string * Float64 => (opts0, child.1, child.2))
                <$> map_to_list a')
              ++ ((fun child : string * Float64 => (opts1, child.1, child.2))
                    <$> map_to_list b').
Proof.
  intros Hmetrics Hres. unfold Update in Hres.
  destruct (Update_procPID ReadFile (registeredProcessesList c))
    as [[procPID resolveLog]|p]; [|discriminate].
  destruct Hres as (stats & Hstats & Hres).
  destruct stats as [[[processStats [err|]] statsLog]|p]; try discriminate.
  destruct Hres as (records & Horder & Hres).
  rewrite Hmetrics in Hres.
  destruct (emit_result procPID processStats statsLog records opts0 opts1 a b Hstats Horder)
    as (a' & b' & Hemit & Ha & Hb).
  rewrite Hemit in Hres. destruct Hres as (ch' & Hall & [= -> -> _]).
  exists procPID, resolveLog, processStats, statsLog, a', b'.
  repeat split; try assumption; try reflexivity.
  - now apply (CollectAll_two opts0 opts1 a' b').
  - now apply (CollectAll_two opts0 opts1 a' b').
  - now apply CollectAll_two_once.
Qed.

(** X10: when [Update] returns no error, on a collector with its two gauge
    vectors, the first vector holds the PID of every resolved process and
    the second the resident memory of every process whose record has slot
    1; the gauges of all other names are as they were before the call,
    whatever order the maps were visited in.  What was sent is exactly one
    metric for every gauge of the two vectors: the metrics sent are, up to
    their order, the gauges of the first vector followed by those of the
    second. *)
Theorem Update_sets_gauges (c : procstatsCollector Float64)
    (opts0 opts1 : GaugeOpts) (a b : gmap string Float64)
    (metrics' : list (Collector Float64)) (ch : list (Metric Float64))
    (log : list logEntry) :
  metrics c = [GaugeVec opts0 a; GaugeVec opts1 b] ->
  update c (Return (metrics', ch, None, log)) ->
  exists procPID resolveLog processStats statsLog a' b',
    Update_procPID ReadFile (registeredProcessesList c) = Return (procPID, resolveLog)
    /\ getProcessStats Open procFilePath procPID (Return (processStats, None, statsLog))
    /\ metrics' = [GaugeVec opts0 a'; GaugeVec opts1 b']
    /\ (forall name, a' !! name = match procPID !! name with
                                  | Some pid => Some (float64 pid)
                                  | None => a !! name
                                  end)
    /\ (forall name, b' !! name = gaugeAfter float64 1 processStats b name)
    /\ (forall opts name value,
          (opts, name, value) ∈ ch
          <-> (opts = opts0 /\ a' !! name = Some value)
              \/ (opts = opts1 /\ b' !! name = Some value))
    /\ ch ≡ₚ ((fun child : string * Float64 => (opts0, child.1, child.2))
                <$> map_to_list a')
              ++ ((fun child : string * Float64 => (opts1, child.1, child.2))
                    <$> map_to_list b').
Proof. exact (Update_result_two c opts0 opts1 a b metrics' ch log). Qed.

(** X12: [Update] never removes a gauge.  For a name that is not resolved
    in a call that returns no error (its PID file is gone, or it is no
    longer registered), what is sent for that name is exactly what the two
    vectors held for it before the call: the last values of a process that
    has stopped are reported again. *)
Theorem Update_keeps_stale_gauges (c : procstatsCollector Float64)
    (opts0 opts1 : GaugeOpts) (a b : gmap string Float64)
    (procPID : gmap string Z) (resolveLog : list logEntry) (procName : string)
    (metrics' : list (Collector Float64)) (ch : list (Metric Float64))
    (log : list logEntry) :
  metrics c = [GaugeVec opts0 a; GaugeVec opts1 b] ->
  Update_procPID ReadFile (registeredProcessesList c) = Return (procPID, resolveLog) ->
  procPID !! procName = None ->
  update c (Return (metrics', ch, None, log)) ->
  forall opts value,
    (opts, procName, value) ∈ ch
    <-> (opts = opts0 /\ a !! procName = Some value)
        \/ (opts = opts1 /\ b !! procName = Some value).
Proof.
  intros Hmetrics Hresolve Hnone Hres opts value.
  destruct (Update_result_two c opts0 opts1 a b metrics' ch log Hmetrics Hres)
    as (procPID' & resolveLog' & processStats & statsLog & a' & b'
        & Hresolve' & Hstats & _ & Ha & Hb & Hch & _).
  rewrite Hresolve in Hresolve'. injection Hresolve' as <- <-.
  rewrite Hch, Ha, Hb, Hnone. unfold gaugeAfter.
  destruct (processStats !! procName) as [stats|] eqn:Hlookup; [|reflexivity].
  destruct (getProcessStats_result Open procFilePath _ _ _ _ Hstats) as (_ & Hdom & _).
  assert (Hs : is_Some (procPID !! procName)) by (apply (Hdom eq_refl procName); eauto).
  rewrite Hnone in Hs. now destruct Hs.
Qed.

(** X13: [Update] succeeds when no registered PID file is empty and the
    status file of every resolved process opens and has no VmRSS line that
    cannot be indexed: every result of the call, on a collector with its
    two gauge vectors, is a return without an error. *)
Theorem Update_succeeds (c : procstatsCollector Float64)
    (opts0 opts1 : GaugeOpts) (a b : gmap string Float64)
    (procPID : gmap string Z) (resolveLog : list logEntry) :
  metrics c = [GaugeVec opts0 a; GaugeVec opts1 b] ->
  Update_procPID ReadFile (registeredProcessesList c) = Return (procPID, resolveLog) ->
  (forall procName pid, procPID !! procName = Some pid ->
     exists content, Open (statusFile procFilePath pid) = inl content
                     /\ Forall (fun text => indexable text = true) (Bufio.scanLines content)) ->
  forall res, update c res ->
    exists metrics' ch log, res = Return (metrics', ch, None, log).
Proof.
  intros Hmetrics Hresolve Hall res Hres. unfold Update in Hres.
  rewrite Hresolve in Hres. destruct Hres as (stats & Hstats & Hres).
  destruct (getProcessStats_all_open Open procFilePath procPID Hall stats Hstats)
    as (processStats & statsLog & -> & _).
  destruct Hres as (records & Horder & Hres). rewrite Hmetrics in Hres.
  destruct (emit_result procPID processStats statsLog records opts0 opts1 a b
              Hstats Horder) as (a' & b' & Hemit & _).
  rewrite Hemit in Hres. destruct Hres as (ch & _ & ->). eauto.
Qed.

(** X11: on a collector with its two gauge vectors [Update] never returns
    the errors "invalid value" or "unexpected collector" and never indexes
    [c.metrics] out of range.  The only error it returns is "couldn't get
    process stats", with nothing sent and no gauge set, and its only panics
    are those of the slice of an empty PID file and of a VmRSS line that
    cannot be indexed. *)
Theorem Update_failures (c : procstatsCollector Float64)
    (opts0 opts1 : GaugeOpts) (a b : gmap string Float64) :
  metrics c = [GaugeVec opts0 a; GaugeVec opts1 b] ->
  forall res, update c res ->
    match res with
    | Panic p =>
        p = SliceBoundsOutOfRange 0 (-1) 0
        \/ p = IndexOutOfRange 1 1 \/ p = SliceBoundsOutOfRange 1 0 0
    | Return (metrics', ch, Some failure, log) =>
        metrics' = metrics c /\ ch = []
        /\ exists err, failure = CouldntGetProcessStats err
    | Return (_, _, None, _) => True
    end.
Proof.
  intros Hmetrics res Hres. unfold Update in Hres.
  destruct (Update_procPID ReadFile (registeredProcessesList c))
    as [[procPID resolveLog]|p] eqn:Hresolve.
  - destruct Hres as (stats & Hstats & Hres).
    destruct stats as [[[processStats [err|]] statsLog]|p].
    + subst res. eauto.
    + destruct Hres as (records & Horder & Hres).
      rewrite Hmetrics in Hres.
      destruct (emit_result procPID processStats statsLog records opts0 opts1 a b
                  Hstats Horder) as (a' & b' & Hemit & _).
      rewrite Hemit in Hres. destruct Hres as (ch' & _ & ->). exact I.
    + subst res. destruct Hstats as (entries & _ & Hrange).
      right. exact (range_panic_kind _ _ _ _ Hrange).
  - subst res. left. exact (Update_loop_panic_kind _ _ _ _ Hresolve).
Qed.

End UpdateWhole.

(** ** [Update] on examples *)

(** Every call of [Update] has a result. *)
Lemma CollectAll_total {Float64 : Type} (collectors : list (Collector Float64)) :
  exists ch, CollectAll Float64 collectors ch.
Proof.
  induction collectors as [|collector collectors [ch IH]].
  - exists []. constructor.
  - destruct collector as [opts children|sends].
    + eexists. apply CollectAll_cons; [|exact IH]. simpl. reflexivity.
    + exists (sends ++ ch). apply CollectAll_cons; [reflexivity | exact IH].
Qed.

Lemma emissionOrder_total (processStats : gmap string (gmap Z Z)) :
  emissionOrder processStats
    ((fun entry : string * gmap Z Z => (entry.1, map_to_list entry.2))
       <$> map_to_list processStats).
Proof.
  exists (map_to_list processStats). split; [reflexivity|].
  induction (map_to_list processStats) as [|entry entries IH]; constructor; auto.
Qed.

Lemma Update_total {Float64 : Type} (float64 : Z -> Float64)
    (ReadFile Open : string -> string + error) (procFilePath : string -> string)
    (c : procstatsCollector Float64) :
  exists res, Update Float64 float64 ReadFile Open procFilePath c res.
Proof.
  unfold Update.
  destruct (Update_procPID ReadFile (registeredProcessesList c))
    as [[procPID log]|p]; [|eauto].
  destruct (getProcessStats_range Open procFilePath (map_to_list procPID) ∅ [])
    as [[[processStats [err|]] statsLog]|p] eqn:Hrange.
  - eexists. eexists. split; [exists (map_to_list procPID); split; [reflexivity|exact Hrange]|].
    simpl. reflexivity.
  - pose proof (emissionOrder_total processStats) as Horder.
    destruct (Update_emit Float64 float64 None
                ((fun entry : string * gmap Z Z => (entry.1, map_to_list entry.2))
                   <$> map_to_list processStats) (metrics c))
      as [[metrics' [failure|]]|p] eqn:Hemit.
    + eexists. eexists. split; [exists (map_to_list procPID); split; [reflexivity|exact Hrange]|].
      eexists. split; [exact Horder|]. rewrite Hemit. reflexivity.
    + destruct (CollectAll_total metrics') as [ch Hch].
      eexists. eexists. split; [exists (map_to_list procPID); split; [reflexivity|exact Hrange]|].
      eexists. split; [exact Horder|]. rewrite Hemit. eauto.
    + eexists. eexists. split; [exists (map_to_list procPID); split; [reflexivity|exact Hrange]|].
      eexists. split; [exact Horder|]. rewrite Hemit. reflexivity.
  - eexists. eexists. split; [exists (map_to_list procPID); split; [reflexivity|exact Hrange]|].
    simpl. reflexivity.
Qed.

(** A call of [Update] on the collector that watches nginx: the gauges of
    nginx are set, those of cron stay. *)
Lemma Update_watchNginx :
  Update Z id varRun procFS procRoot watchNginx (Return (afterNginx, sentNginx, None, [])).
Proof.
  unfold Update.
  change (Update_procPID varRun (registeredProcessesList watchNginx))
    with (Update_procPID varRun ["nginx"]).
  replace (Update_procPID varRun ["nginx"])
    with (Return (<["nginx" := 456]> (∅ : gmap string Z), @nil logEntry))
    by (vm_compute; reflexivity).
  exists (Return (<["nginx" := <[1 := 11708]> (<[0 := 456]> ∅)]> ∅, None, [])).
  split.
  - exists [("nginx", 456)]. split; vm_compute; reflexivity.
  - exists [("nginx", [(1, 11708); (0, 456)])]. split.
    + exists [("nginx", <[1 := 11708]> (<[0 := 456]> ∅))].
      split; [vm_compute; reflexivity|].
      constructor; [|constructor]. split; [reflexivity|]. vm_compute. reflexivity.
    + replace (Update_emit Z id None [("nginx", [(1, 11708); (0, 456)])] (metrics watchNginx))
        with (Return (afterNginx, @None updateError)) by (vm_compute; reflexivity).
      exists sentNginx. split; [|reflexivity].
      apply (CollectAll_cons Z _ _ [(pidGauge, "cron", 99); (pidGauge, "nginx", 456)]
               [(memGauge, "cron", 5); (memGauge, "nginx", 11708)]);
        [vm_compute; reflexivity|].
      apply (CollectAll_cons Z _ _ [(memGauge, "cron", 5); (memGauge, "nginx", 11708)] []);
        [vm_compute; reflexivity | constructor].
Defined.

Lemma Update_open_failure_witness :
  procFS (statusFile procRoot 0) = inr (PathError "open" "/proc/0/status")
  /\ forall res, Update Z id varRun procFS procRoot watchBoth res ->
    (exists p, res = Panic p)
    \/ (exists e' log',
          res = Return (metrics watchBoth, [], Some (CouldntGetProcessStats e'), log')).
Proof.
  split; [reflexivity|].
  apply (Update_open_failure Z id varRun procFS procRoot watchBoth
           (<["nginx" := 456]> (<["hekad" := 0]> ∅))
           [LogPidConversion "hekad" (ErrSyntax "Atoi" "abc")]
           "hekad" 0 (PathError "open" "/proc/0/status")).
  - vm_compute. reflexivity.
  - reflexivity.
  - reflexivity.
Defined.

Lemma Update_sets_gauges_witness :
  exists procPID resolveLog processStats statsLog a' b',
    Update_procPID varRun (registeredProcessesList watchNginx) = Return (procPID, resolveLog)
    /\ getProcessStats procFS procRoot procPID (Return (processStats, None, statsLog))
    /\ afterNginx = [GaugeVec pidGauge a'; GaugeVec memGauge b']
    /\ (forall name, a' !! name = match procPID !! name with
                                  | Some pid => Some (id pid)
                                  | None => (<["cron" := 99]> (∅ : gmap string Z)) !! name
                                  end)
    /\ (forall name, b' !! name
                     = gaugeAfter id 1 processStats (<["cron" := 5]> (∅ : gmap string Z)) name)
    /\ (forall opts name value,
          (opts, name, value) ∈ sentNginx
          <-> (opts = pidGauge /\ a' !! name = Some value)
              \/ (opts = memGauge /\ b' !! name = Some value))
    /\ sentNginx ≡ₚ ((fun child : string * Z => (pidGauge, child.1, child.2))
                       <$> map_to_list a')
                    ++ ((fun child : string * Z => (memGauge, child.1, child.2))
                          <$> map_to_list b').
Proof.
  apply (Update_sets_gauges Z id varRun procFS procRoot watchNginx pidGauge memGauge
           (<["cron" := 99]> ∅) (<["cron" := 5]> ∅) afterNginx sentNginx []).
  - reflexivity.
  - exact Update_watchNginx.
Defined.

Lemma Update_keeps_stale_gauges_witness :
  Update Z id varRun procFS procRoot watchNginx (Return (afterNginx, sentNginx, None, []))
  /\ forall opts value,
    (opts, "cron", value) ∈ sentNginx
    <-> (opts = pidGauge /\ (<["cron" := 99]> (∅ : gmap string Z)) !! "cron" = Some value)
        \/ (opts = memGauge /\ (<["cron" := 5]> (∅ : gmap string Z)) !! "cron" = Some value).
Proof.
  split; [exact Update_watchNginx|].
  apply (Update_keeps_stale_gauges Z id varRun procFS procRoot watchNginx pidGauge memGauge
           (<["cron" := 99]> ∅) (<["cron" := 5]> ∅) (<["nginx" := 456]> ∅) []
           "cron" afterNginx sentNginx []).
  - reflexivity.
  - vm_compute. reflexivity.
  - reflexivity.
  - exact Update_watchNginx.
Defined.

Lemma Update_succeeds_witness :
  Update_procPID varRun (registeredProcessesList watchNginx)
  = Return (<["nginx" := 456]> ∅, [])
  /\ forall res, Update Z id varRun procFS procRoot watchNginx res ->
    exists metrics' ch log, res = Return (metrics', ch, None, log).
Proof.
  split; [vm_compute; reflexivity|].
  apply (Update_succeeds Z id varRun procFS procRoot watchNginx pidGauge memGauge
           (<["cron" := 99]> ∅) (<["cron" := 5]> ∅) (<["nginx" := 456]> ∅) []).
  - reflexivity.
  - vm_compute. reflexivity.
  - intros procName pid H.
    apply lookup_insert_Some in H as [[<- <-] | [_ H]].
    + exists statusRecord. split; [reflexivity | repeat constructor].
    + rewrite lookup_empty in H. discriminate.
Defined.

Lemma Update_failures_witness :
  metrics watchBoth = [GaugeVec pidGauge ∅; GaugeVec memGauge ∅]
  /\ forall res, Update Z id varRun procFS procRoot watchBoth res ->
    match res with
    | Panic p =>
        p = SliceBoundsOutOfRange 0 (-1) 0
        \/ p = IndexOutOfRange 1 1 \/ p = SliceBoundsOutOfRange 1 0 0
    | Return (metrics', ch, Some failure, log) =>
        metrics' = metrics watchBoth /\ ch = []
        /\ exists err, failure = CouldntGetProcessStats err
    | Return (_, _, None, _) => True
    end.
Proof.
  split; [reflexivity|].
  apply (Update_failures Z id varRun procFS procRoot watchBoth pidGauge memGauge ∅ ∅).
  reflexivity.
Defined.

Lemma Update_malformed_pid_file_witness :
  Strconv.Atoi "abc" = (0, Some (ErrSyntax "Atoi" "abc"))
  /\ forall res, Update Z id varRun procFS procRoot watchBoth res ->
    (exists p, res = Panic p)
    \/ (exists e' log',
          res = Return (metrics watchBoth, [], Some (CouldntGetProcessStats e'), log')).
Proof.
  split; [reflexivity|].
  apply (Update_malformed_pid_file Z id varRun procFS procRoot watchBoth
           "hekad" "abc" (byte 10) (PathError "open" "/proc/0/status")).
  - left. reflexivity.
  - reflexivity.
  - reflexivity.
  - reflexivity.
Defined.
